(** * pl_processRecording: frame processing, heat map and frame loop

    A shallow embedding of [src/pl_processRecording.py].

    - Python floats (and numpy [float64]) are Rocq's primitive binary64
      floats; Python integers are [nat] (counters, array shapes) or [Z]
      (pandas index labels, pixel coordinates).
    - The code runs in a small monad [Py]: it threads the trace of the
      calls made to the collaborators (the [GazeMapper] object, the plotting
      library, the video writers, the CSV file) and carries Python
      exceptions.
    - [pl_gazeMappingTools.GazeMapper], OpenCV and matplotlib/seaborn are
      not part of this file of the repository: the mapper is a record of
      operations (it is an argument of [processFrame] in the source too),
      OpenCV and the plotting calls are parameters of the development.
    - Console output ([print]) and wall-clock timing are left out. *)

From Stdlib Require Import String Ascii ZArith List Bool Lia Arith Sorted.
From Stdlib Require Import PrimFloat Uint63 FloatOps SpecFloat FloatAxioms.
Import ListNotations.

(** ** Python values *)

Module Python.

(** The exceptions the modelled code can meet. [ExternalError] stands for
    whatever a collaborator raises ([cv2.error], [LinAlgError], ...). *)
Inductive exn : Type :=
| IndexError
| ValueError
| OverflowError
| AttributeError
| KeyError (key : string)
| UnboundLocalError (name : string)
| ExternalError (msg : string).

Definition result (A : Type) : Type := (exn + A)%type.

(** [float(n)] for a Python integer that is an array dimension. *)
Definition float_of_nat (n : nat) : float :=
  PrimFloat.of_uint63 (Uint63.of_Z (Z.of_nat n)).

(** [int(x)]: truncation toward zero; [ValueError] on a NaN and
    [OverflowError] on an infinity. *)
Definition int (x : float) : result Z :=
  match Prim2SF x with
  | S754_zero _ => inr 0%Z
  | S754_infinity _ => inl OverflowError
  | S754_nan => inl ValueError
  | S754_finite s m e =>
      let a := match e with
               | Z0 => Zpos m
               | Zpos p => (Zpos m * 2 ^ Zpos p)%Z
               | Zneg p => (Zpos m / 2 ^ Zpos p)%Z
               end in
      inr (if s then (- a)%Z else a)
  end.

(** [a[i]] on a sequence, for a non-negative [i]. *)
Definition index {A} (a : list A) (i : nat) : result A :=
  match nth_error a i with
  | Some x => inr x
  | None => inl IndexError
  end.

(** [x, y, z = a] *)
Definition unpack3 {A} (a : list A) : result (A * A * A) :=
  match a with
  | [x; y; z] => inr (x, y, z)
  | _ => inl ValueError
  end.

(** [d[key]] on a dict whose entry may be absent. *)
Definition getitem {A} (key : string) (entry : option A) : result A :=
  match entry with
  | Some v => inr v
  | None => inl (KeyError key)
  end.

End Python.
Export Python.

(** ** Data *)

(** A raster image (numpy array): [shape0] rows, [shape1] columns, and the
    pixel bytes. *)
Record Image : Type := mkImage {
  shape0 : nat;
  shape1 : nat;
  pixels : list Z
}.

Definition Point : Type := (float * float)%type.
Definition Points : Type := list Point.
Definition Vec : Type := list float.
Definition Mat : Type := list (list float).
Definition KeyPoint : Type := Point.
Definition Descriptors : Type := list (list Z).
Definition Color : Type := (Z * Z * Z)%type.

(** One row of [gazeWorld_df] (the gaze data in world-camera coordinates). *)
Record GazeRow : Type := mkGazeRow {
  row_label : Z;          (* the pandas index label *)
  row_index : nat;        (* column 'index': the world frame of the sample *)
  timestamp : float;
  confidence : float;
  norm_pos_x : float;
  norm_pos_y : float
}.

(** One row of the mapped gaze data ([gazeData_df], [gazeData_master]). *)
Record MappedRow : Type := mkMappedRow {
  label : Z;
  gaze_ts : float;
  worldFrame : nat;
  mapped_confidence : float;
  frame_gazeX : float;
  frame_gazeY : float;
  ref_gazeX : float;
  ref_gazeY : float;
  obj_gazeX : float;
  obj_gazeY : float;
  obj_gazeZ : float
}.

Definition DataFrame : Type := list MappedRow.

(** [df.index.max()] and [df.index.min()] of a frame with at least one row. *)
Definition index_max (df : DataFrame) : Z :=
  match df with
  | [] => 0%Z
  | r :: rest => fold_left Z.max (map label rest) (label r)
  end.

Definition index_min (df : DataFrame) : Z :=
  match df with
  | [] => 0%Z
  | r :: rest => fold_left Z.min (map label rest) (label r)
  end.

(** The camera calibration dict. *)
Record CamCalib : Type := mkCamCalib {
  camera_matrix : Mat;
  dist_coefs : Mat
}.

(** The four output movies. *)
Inductive Stream : Type := Orig | Gaze | SummaryWorld | SummaryRef.

Inductive MapperOp : Type :=
| FindFeatures | FindMatches | PnP | GetCameraPosition | Get2Dmapping
| MapCoords2D | Ref2obj | ProjectImage2D.

(** What the code does to the world outside, in order. *)
Inductive Event : Type :=
| Call (op : MapperOp)
| Kdeplot (xArr yArr : list float)
| WriterOpen (s : Stream) (width height : nat)
| WriterWrite (s : Stream) (img : Image)
| WriterRelease (s : Stream)
| CaptureRelease
| ToCsv (df : DataFrame).

Definition Trace : Type := list Event.

(** ** The monad: a trace and an exception *)

Definition Py (A : Type) : Type := Trace -> Trace * result A.

Definition ret {A} (a : A) : Py A := fun t => (t, inr a).

Definition raise {A} (e : exn) : Py A := fun t => (t, inl e).

Definition bind {A B} (c : Py A) (f : A -> Py B) : Py B :=
  fun t =>
    match c t with
    | (t1, inr a) => f a t1
    | (t1, inl e) => (t1, inl e)
    end.

(** [try: c  except: h] with a bare [except]. *)
Definition try_except {A} (c : Py A) (h : Py A) : Py A :=
  fun t =>
    match c t with
    | (t1, inr a) => (t1, inr a)
    | (t1, inl _) => h t1
    end.

Definition emit (e : Event) : Py unit := fun t => (t ++ [e], inr tt).

Definition lift {A} (r : result A) : Py A := fun t => (t, r).

(** A call of a method of the mapper: the call is recorded, then its
    outcome is returned or raised. *)
Definition call {A} (op : MapperOp) (r : result A) : Py A :=
  fun t => (t ++ [Call op], r).

Declare Scope py_scope.
Delimit Scope py_scope with py.
Notation "x <- c ;; k" := (bind c (fun x => k))
  (at level 61, c at next level, right associativity) : py_scope.
Notation "' p <- c ;; k" := (bind c (fun x => match x with p => k end))
  (at level 61, p pattern, c at next level, right associativity) : py_scope.
Notation "c ;; k" := (bind c (fun _ => k))
  (at level 61, right associativity) : py_scope.
Local Open Scope py_scope.

(** ** The collaborators *)

(** [gm.GazeMapper]: the object [processFrame] receives as [mapper]. Every
    method may raise. [findMatches] returns [None] for the match points
    when it has none to give; [ref2obj] is given with its result already
    in [ravel()] order. *)
Record GazeMapper : Type := mkGazeMapper {
  refImgColor : Image;
  findFeatures : Image -> result (list KeyPoint * Descriptors);
  findMatches : list KeyPoint -> Descriptors ->
                result (option Points * option Points);
  PnP_3Dmapping : option Points -> option Points -> result (Vec * Vec);
  getCameraPosition : Vec -> Vec -> result (Vec * Vec);
  get2Dmapping : option Points -> option Points -> result (Mat * Mat);
  mapCoords2D : Point -> Mat -> result Point;
  ref2obj : Points -> result (list float);
  projectImage2D : Image -> Mat -> Image -> result Image
}.

Inductive ColorCode : Type := COLOR_BGR2GRAY | COLOR_BGR2RGB.

(** The OpenCV functions the code calls on images. *)
Record Cv2 : Type := mkCv2 {
  cvtColor : Image -> ColorCode -> Image;
  undistort : Image -> Mat -> Mat -> Image;
  (* circle img center radius color thickness *)
  circle : Image -> Z * Z -> Z -> Color -> Z -> Image;
  (* line img pt1 pt2 color thickness (anti-aliased) *)
  line : Image -> Z * Z -> Z * Z -> Color -> Z -> Image
}.

(** matplotlib and seaborn: [kde_canvas refStim_RGB w h xArr yArr] is the
    pixel array of the figure canvas after [imshow], [kdeplot], the axis
    settings and [fig.canvas.draw()] (lines 376-405 of the source). *)
Record Plotting : Type := mkPlotting {
  kde_canvas : Image -> nat -> nat -> list float -> list float -> result Image
}.

(** The per-frame dict [fr]; an entry that is set on some paths only is an
    option. *)
Record FrameResult : Type := mkFrameResult {
  frameNum : nat;
  origFrame : Image;
  frame_ts : float;
  gazeFrame : Image;
  foundGoodMatch : bool;
  camPosition : option Vec;
  camOrientation : option Vec;
  ref2frame_2Dtrans : option Mat;
  frame2ref_2Dtrans : option Mat;
  gazeData : option DataFrame
}.

Section Model.

Variable cv : Cv2.
Variable plt : Plotting.

(** ** processFrame *)

(** Lines 253-267: the [try] around [ref_matchPts.shape[0]] and its bare
    [except]. *)
Definition sufficientMatches (ref_matchPts : option Points) : Py bool :=
  try_except
    (numMatches <- lift (match ref_matchPts with
                         | Some pts => inr (length pts)
                         | None => inl AttributeError
                         end) ;;
     if 10 <? numMatches then ret true else ret false)
    (ret false).

(** Lines 321-322: normalized gaze position to pixel position. *)
Definition denormalize (frame_gray : Image) (gazeRow : GazeRow) : Point :=
  ((norm_pos_x gazeRow * float_of_nat (shape1 frame_gray))%float,
   (float_of_nat (shape0 frame_gray)
    - norm_pos_y gazeRow * float_of_nat (shape0 frame_gray))%float).

(** Lines 315-339: the loop over the gaze rows of the frame. *)
Fixpoint mapGaze (mapper : GazeMapper) (frameCounter : nat)
    (frame_gray : Image) (frame2ref_2D : Mat)
    (rows : list GazeRow) (gazeData_df : DataFrame) : Py DataFrame :=
  match rows with
  | [] => ret gazeData_df
  | gazeRow :: rest =>
      let ts := timestamp gazeRow in
      let frameNum := frameCounter in
      let conf := confidence gazeRow in
      let '(frame_gazeX, frame_gazeY) := denormalize frame_gray gazeRow in
      ' (ref_gazeX, ref_gazeY) <-
        call MapCoords2D
             (mapCoords2D mapper (frame_gazeX, frame_gazeY) frame2ref_2D) ;;
      objCoords <- call Ref2obj (ref2obj mapper [(ref_gazeX, ref_gazeY)]) ;;
      ' (obj_gazeX, obj_gazeY, obj_gazeZ) <- lift (unpack3 objCoords) ;;
      let thisRow_df :=
        [ mkMappedRow (row_label gazeRow) ts frameNum conf
                      frame_gazeX frame_gazeY ref_gazeX ref_gazeY
                      obj_gazeX obj_gazeY obj_gazeZ ] in
      mapGaze mapper frameCounter frame_gray frame2ref_2D rest
              (gazeData_df ++ thisRow_df)
  end.

(** Lines 346-354: one circle per mapped gaze point. *)
Fixpoint drawGaze (last : Z) (rows : DataFrame) (gazeFrame : Image)
    : Py Image :=
  match rows with
  | [] => ret gazeFrame
  | row :: rest =>
      x <- lift (int (frame_gazeX row)) ;;
      y <- lift (int (frame_gazeY row)) ;;
      if (label row =? last)%Z
      then drawGaze last rest
             (circle cv gazeFrame (x, y) 10 (96, 52, 234)%Z (-1))
      else drawGaze last rest
             (circle cv gazeFrame (x, y) 8 (168, 231, 86)%Z (-1))
  end.

(** Lines 275-357: the branch taken with sufficient matches. *)
Definition goodMatch (frameCounter : nat) (origFrame frame_gray : Image)
    (frame_ts : float) (mapper : GazeMapper)
    (thisFrame_gazeData_world : list GazeRow)
    (ref_matchPts : option Points) (frame_matchPts : option Points)
    : Py FrameResult :=
  ' (rvec, tvec) <-
    call PnP (PnP_3Dmapping mapper ref_matchPts frame_matchPts) ;;
  ' (camPosition, camOrientation) <-
    call GetCameraPosition (getCameraPosition mapper rvec tvec) ;;
  ' (ref2frame_2D, frame2ref_2D) <-
    call Get2Dmapping (get2Dmapping mapper ref_matchPts frame_matchPts) ;;
  match thisFrame_gazeData_world with
  | [] =>
      ret (mkFrameResult frameCounter origFrame frame_ts origFrame true
             (Some camPosition) (Some camOrientation)
             (Some ref2frame_2D) (Some frame2ref_2D) (Some []))
  | _ :: _ =>
      gazeData_df <- mapGaze mapper frameCounter frame_gray frame2ref_2D
                       thisFrame_gazeData_world [] ;;
      gazeFrame <- drawGaze (index_max gazeData_df) gazeData_df origFrame ;;
      ret (mkFrameResult frameCounter origFrame frame_ts gazeFrame true
             (Some camPosition) (Some camOrientation)
             (Some ref2frame_2D) (Some frame2ref_2D) (Some gazeData_df))
  end.

(** Lines 225-360. [origFrame] is [frame.copy()]: the same pixels. In the
    branch with fewer than two key points [frame_matchPts] stays unbound;
    it is read only when [ref_matchPts] is an array, so when
    [findMatches] was called. *)
Definition processFrame (frameCounter : nat) (frame : Image)
    (mapper : GazeMapper) (thisFrame_gazeData_world : list GazeRow)
    (frame_timestamps : list float) : Py FrameResult :=
  let origFrame := frame in
  let frame_gray := cvtColor cv frame COLOR_BGR2GRAY in
  frame_ts <- lift (index frame_timestamps frameCounter) ;;
  ' (frame_kp, frame_des) <-
    call FindFeatures (findFeatures mapper frame_gray) ;;
  ' (ref_matchPts, frame_matchPts) <-
    (if length frame_kp <? 2
     then ret (None, None)
     else call FindMatches (findMatches mapper frame_kp frame_des)) ;;
  sufficient <- sufficientMatches ref_matchPts ;;
  if negb sufficient
  then ret (mkFrameResult frameCounter origFrame frame_ts origFrame false
              None None None None None)
  else goodMatch frameCounter origFrame frame_gray frame_ts mapper
         thisFrame_gazeData_world ref_matchPts frame_matchPts.

(** ** createHeatmap *)

(** Lines 409-423: the gaze trace. [prev] is the pair
    [prev_ref_gazeX, prev_ref_gazeY], unbound until the row whose label
    is the smallest has been met. *)
Fixpoint drawTrace (first : Z) (rows : DataFrame) (prev : option (Z * Z))
    (heatmap : Image) : Py Image :=
  match rows with
  | [] => ret heatmap
  | row :: rest =>
      if (label row =? first)%Z
      then
        prev_ref_gazeX <- lift (int (ref_gazeX row)) ;;
        prev_ref_gazeY <- lift (int (ref_gazeY row)) ;;
        drawTrace first rest (Some (prev_ref_gazeX, prev_ref_gazeY)) heatmap
      else
        cur_ref_gazeX <- lift (int (ref_gazeX row)) ;;
        cur_ref_gazeY <- lift (int (ref_gazeY row)) ;;
        match prev with
        | None => raise (UnboundLocalError "prev_ref_gazeX")
        | Some p =>
            drawTrace first rest (Some (cur_ref_gazeX, cur_ref_gazeY))
              (line cv heatmap p (cur_ref_gazeX, cur_ref_gazeY)
                    (107, 234, 101)%Z 3)
        end
  end.

(** Lines 426-434: circles for the points of the current frame. *)
Fixpoint drawLast (last : Z) (rows : DataFrame) (heatmap : Image)
    : Py Image :=
  match rows with
  | [] => ret heatmap
  | row :: rest =>
      x <- lift (int (ref_gazeX row)) ;;
      y <- lift (int (ref_gazeY row)) ;;
      if (label row =? last)%Z
      then drawLast last rest
             (circle cv heatmap (x, y) 10 (234, 52, 96)%Z (-1))
      else drawLast last rest
             (circle cv heatmap (x, y) 8 (86, 231, 168)%Z (-1))
  end.

(** Line 369: the rows of the log up to the current frame. *)
Definition upToFrame (gazeData_master : DataFrame) (frameCounter : nat)
    : DataFrame :=
  filter (fun r => worldFrame r <=? frameCounter) gazeData_master.

(** Lines 363-439. The figure of lines 376-378 is made on both branches;
    only the second draws on it and reads it back ([kde_canvas]). With at
    most two rows [heatmap] is the array [refStim] itself. *)
Definition createHeatmap (gazeData_master : DataFrame) (frameCounter : nat)
    (refStim : Image) : Py Image :=
  let heatmap_df := upToFrame gazeData_master frameCounter in
  let refStim_RGB := cvtColor cv refStim COLOR_BGR2RGB in
  let w := shape1 refStim in
  let h := shape0 refStim in
  if length heatmap_df <=? 2
  then ret refStim
  else
    let xArr := map ref_gazeX heatmap_df in
    let yArr := map ref_gazeY heatmap_df in
    emit (Kdeplot xArr yArr) ;;
    heatmap <- lift (kde_canvas plt refStim_RGB w h xArr yArr) ;;
    heatmap <- drawTrace (index_min heatmap_df) heatmap_df None heatmap ;;
    heatmap <- drawLast (index_max heatmap_df)
                 (filter (fun r => worldFrame r =? frameCounter) heatmap_df)
                 heatmap ;;
    ret (cvtColor cv heatmap COLOR_BGR2RGB).

(** ** processRecording *)

(** [cv2.VideoCapture]: whether it is open, and the frames it has not
    handed out yet. *)
Record VideoCapture : Type := mkVideoCapture {
  isOpened : bool;
  frames : list Image;
  CAP_PROP_FRAME_COUNT : nat;
  CAP_PROP_FRAME_WIDTH : nat;
  CAP_PROP_FRAME_HEIGHT : nat
}.

(** [ret, frame = vid.read()] *)
Definition read (vid : VideoCapture)
    : bool * option Image * VideoCapture :=
  match frames vid with
  | frame :: rest =>
      (true, Some frame,
       mkVideoCapture (isOpened vid) rest (CAP_PROP_FRAME_COUNT vid)
         (CAP_PROP_FRAME_WIDTH vid) (CAP_PROP_FRAME_HEIGHT vid))
  | [] => (false, None, vid)
  end.

Definition release (vid : VideoCapture) : VideoCapture :=
  mkVideoCapture false (frames vid) (CAP_PROP_FRAME_COUNT vid)
    (CAP_PROP_FRAME_WIDTH vid) (CAP_PROP_FRAME_HEIGHT vid).

(** What lines 80-124 of [processRecording] load before the frame loop. *)
Record Recording : Type := mkRecording {
  camCalib : CamCalib;
  gazeWorld_df : list GazeRow;
  frame_timestamps : list float;
  refStim : Image;
  mapper : GazeMapper;
  world_mp4 : VideoCapture
}.

Definition arange (start stop : nat) : list nat := seq start (stop - start).

(** Lines 80 and 137-138. *)
Definition framesToUse (totalFrames : nat) : list nat :=
  let framesToUse := arange 0 445 in
  if list_max framesToUse <? totalFrames
  then filter (fun f => f <=? totalFrames) framesToUse
  else framesToUse.

(** The local variables that live across the iterations of the loop;
    [gazeData_master] is unbound until the first good match. *)
Record LoopState : Type := mkLoopState {
  vid : VideoCapture;
  frameCounter : nat;
  gazeData_master : option DataFrame
}.

(** Lines 181-199: the cumulative log, and the two summary images. *)
Definition summarize (rec : Recording) (frameCounter : nat)
    (gazeData_master : option DataFrame) (processedFrame : FrameResult)
    : Py (option DataFrame * Image * Image) :=
  if foundGoodMatch processedFrame
  then
    gazeData <- lift (getitem "gazeData" (gazeData processedFrame)) ;;
    let gazeData_master :=
      match gazeData_master with
      | Some master => master ++ gazeData
      | None => gazeData
      end in
    gazeSummary_ref <-
      createHeatmap gazeData_master frameCounter
                    (refImgColor (mapper rec)) ;;
    ref2frame <- lift (getitem "ref2frame_2Dtrans"
                               (ref2frame_2Dtrans processedFrame)) ;;
    mappedSummaryFrame <-
      call ProjectImage2D
           (projectImage2D (mapper rec) (origFrame processedFrame)
                           ref2frame gazeSummary_ref) ;;
    ret (Some gazeData_master, gazeSummary_ref, mappedSummaryFrame)
  else
    ret (gazeData_master, origFrame processedFrame,
         origFrame processedFrame).

(** Lines 169-205: what is done with a frame that was read. *)
Definition handleFrame (rec : Recording) (frameCounter : nat)
    (gazeData_master : option DataFrame) (frame : Image)
    : Py (option DataFrame) :=
  let thisFrame_gazeData_world :=
    filter (fun g => row_index g =? frameCounter) (gazeWorld_df rec) in
  let frame := undistort cv frame (camera_matrix (camCalib rec))
                         (dist_coefs (camCalib rec)) in
  processedFrame <-
    processFrame frameCounter frame (mapper rec) thisFrame_gazeData_world
                 (frame_timestamps rec) ;;
  ' (gazeData_master, gazeSummary_ref, mappedSummaryFrame) <-
    summarize rec frameCounter gazeData_master processedFrame ;;
  emit (WriterWrite Orig (origFrame processedFrame)) ;;
  emit (WriterWrite Gaze (gazeFrame processedFrame)) ;;
  emit (WriterWrite SummaryRef gazeSummary_ref) ;;
  emit (WriterWrite SummaryWorld mappedSummaryFrame) ;;
  ret gazeData_master.

(** Lines 165-217: one iteration of the [while] loop. *)
Definition loopBody (rec : Recording) (framesToUse : list nat)
    (st : LoopState) : Py LoopState :=
  let '(ret_, frame, vid) := read (vid st) in
  gazeData_master <-
    match frame with
    | Some frame =>
        if ret_ && existsb (Nat.eqb (frameCounter st)) framesToUse
        then handleFrame rec (frameCounter st) (gazeData_master st) frame
        else ret (gazeData_master st)
    | None => ret (gazeData_master st)
    end ;;
  let frameCounter := frameCounter st + 1 in
  if list_max framesToUse <? frameCounter
  then
    emit CaptureRelease ;;
    emit (WriterRelease Orig) ;;
    emit (WriterRelease Gaze) ;;
    emit (WriterRelease SummaryRef) ;;
    emit (WriterRelease SummaryWorld) ;;
    match gazeData_master with
    | Some master =>
        emit (ToCsv master) ;;
        ret (mkLoopState (release vid) frameCounter gazeData_master)
    | None => raise (UnboundLocalError "gazeData_master")
    end
  else ret (mkLoopState vid frameCounter gazeData_master).

(** [while vid.isOpened(): ...]; [None] when [fuel] iterations did not
    close the capture. *)
Fixpoint frameLoop (rec : Recording) (framesToUse : list nat)
    (fuel : nat) (st : LoopState) : Py (option LoopState) :=
  if negb (isOpened (vid st))
  then ret (Some st)
  else
    match fuel with
    | O => ret None
    | S fuel =>
        st <- loopBody rec framesToUse st ;;
        frameLoop rec framesToUse fuel st
    end.

(** Lines 140-217 of [processRecording], on a loaded recording. The loop
    is given one iteration per frame number up to the largest one in
    [framesToUse]; the result is [None] if that were not enough. *)
Definition processRecording (rec : Recording) : Py (option unit) :=
  let refStim_dims := (shape1 (refStim rec), shape0 (refStim rec)) in
  let vid := world_mp4 rec in
  let totalFrames := CAP_PROP_FRAME_COUNT vid in
  let vidSize := (CAP_PROP_FRAME_WIDTH vid, CAP_PROP_FRAME_HEIGHT vid) in
  let framesToUse := framesToUse totalFrames in
  emit (WriterOpen Orig (fst vidSize) (snd vidSize)) ;;
  emit (WriterOpen Gaze (fst vidSize) (snd vidSize)) ;;
  emit (WriterOpen SummaryWorld (fst vidSize) (snd vidSize)) ;;
  emit (WriterOpen SummaryRef (fst refStim_dims) (snd refStim_dims)) ;;
  st <- frameLoop rec framesToUse (S (list_max framesToUse))
                  (mkLoopState vid 0 None) ;;
  ret (option_map (fun _ => tt) st).

End Model.

(** * A small concrete environment

    A raster backend on three-byte pixels, a plotting backend and a mapper,
    on which the model runs. *)

Module Sample.

Fixpoint swapRB (px : list Z) : list Z :=
  match px with
  | b :: g :: r :: rest => r :: g :: b :: swapRB rest
  | _ => px
  end.

Fixpoint toGray (px : list Z) : list Z :=
  match px with
  | b :: g :: r :: rest => ((b + g + r) / 3)%Z :: toGray rest
  | _ => []
  end.

(** Sets the pixel at column [x], row [y]; nothing is drawn off the image. *)
Definition paint (img : Image) (p : Z * Z) (color : Color) : Image :=
  let '(x, y) := p in
  let '(b, g, r) := color in
  if ((0 <=? x) && (x <? Z.of_nat (shape1 img)) &&
      (0 <=? y) && (y <? Z.of_nat (shape0 img)))%Z
  then
    let off := 3 * (Z.to_nat y * shape1 img + Z.to_nat x) in
    mkImage (shape0 img) (shape1 img)
            (firstn off (pixels img) ++ [b; g; r] ++ skipn (off + 3) (pixels img))
  else img.

(** A circle is drawn as its centre, a line as its two ends; the frames are
    taken as already free of lens distortion. *)
Definition cv : Cv2 :=
  {| cvtColor := fun img code =>
       match code with
       | COLOR_BGR2GRAY => mkImage (shape0 img) (shape1 img) (toGray (pixels img))
       | COLOR_BGR2RGB => mkImage (shape0 img) (shape1 img) (swapRB (pixels img))
       end;
     undistort := fun img _ _ => img;
     circle := fun img center _ color _ => paint img center color;
     line := fun img pt1 pt2 color _ => paint (paint img pt1 color) pt2 color |}.

(** The density is shaded on the pixels the points fall on, over the image
    shown. *)
Fixpoint shade (img : Image) (xArr yArr : list float) : Image :=
  match xArr, yArr with
  | x :: xs, y :: ys =>
      match int x, int y with
      | inr a, inr b => shade (paint img (a, b) (84, 1, 68)%Z) xs ys
      | _, _ => shade img xs ys
      end
  | _, _ => img
  end.

Definition plt : Plotting :=
  {| kde_canvas := fun shown _ _ xArr yArr => inr (shade shown xArr yArr) |}.

Definition identity3 : Mat :=
  [[1; 0; 0]; [0; 1; 0]; [0; 0; 1]]%float.

(** A mapper that finds as many key points on a frame as the value of its
    first pixel and matches all but one of them, the matches all on one
    straight line; its solver succeeds when [stable] and raises otherwise.
    The frame and the reference image are related by the identity. *)
Definition mapper (ref : Image) (stable : bool) : GazeMapper :=
  {| refImgColor := ref;
     findFeatures := fun img =>
       let n := Z.to_nat (hd 0%Z (pixels img)) in
       inr (repeat (0, 0)%float n, repeat [0%Z] n);
     findMatches := fun kp _ =>
       let pts := map (fun i => (float_of_nat i, float_of_nat i))
                      (seq 0 (length kp - 1)) in
       inr (Some pts, Some pts);
     PnP_3Dmapping := fun _ _ =>
       if stable then inr ([0; 0; 0], [0; 0; 1])%float
       else inl (ExternalError "solvePnP");
     getCameraPosition := fun rvec tvec => inr (tvec, rvec);
     get2Dmapping := fun _ _ =>
       if stable then inr (identity3, identity3)
       else inl (ExternalError "findHomography");
     mapCoords2D := fun p _ => inr p;
     ref2obj := fun pts => inr (flat_map (fun p => [fst p; snd p; 0%float]) pts);
     projectImage2D := fun orig _ _ => inr orig |}.

(** A 2 x 4 camera frame of brightness [n], and a 2 x 4 reference image. *)
Definition frameOf (n : Z) : Image := mkImage 2 4 (repeat n 24).

Definition refImage : Image :=
  mkImage 2 4 [ 1;  2;  3;  4;  5;  6;  7;  8;  9; 10; 11; 12;
               13; 14; 15; 16; 17; 18; 19; 20; 21; 22; 23; 24]%Z.

(** The gaze sample with label [i], of frame [k], at the normalized
    position [(x, y)]. *)
Definition gazeAt (i : Z) (k : nat) (x y : float) : GazeRow :=
  mkGazeRow i k (float_of_nat k) 1%float x y.

(** The mapped row with label [i], of frame [k], at the reference position
    [(x, y)]. *)
Definition mappedAt (i : Z) (k : nat) (x y : float) : MappedRow :=
  mkMappedRow i (float_of_nat k) k 1%float x y x y x y 0%float.

Definition calib : CamCalib := mkCamCalib identity3 [[0; 0; 0; 0; 0]]%float.

Definition timestamps : list float := [0; 1; 2; 3]%float.

Definition gazeSamples : list GazeRow :=
  [gazeAt 0 0 0.5 0.5; gazeAt 1 0 0.25 0.75; gazeAt 2 1 0.5 0.5;
   gazeAt 3 2 0.75 0.25]%float.

Definition video (opened : bool) (frames : list Image) : VideoCapture :=
  mkVideoCapture opened frames (length frames) 4 2.

(** Three frames: twelve key points and eleven matches on the first and
    the last, eleven key points and ten matches on the second. *)
Definition recording : Recording :=
  mkRecording calib gazeSamples timestamps refImage (mapper refImage true)
              (video true [frameOf 12; frameOf 11; frameOf 12]).





(** Three mapped points on the reference image. *)
Definition onImageLog : DataFrame :=
  [mappedAt 0 0 0.5 0.5; mappedAt 1 0 1.5 0.5; mappedAt 2 1 3.5 1.5]%float.

(** Three mapped points whose first row does not carry the smallest
    label. *)
Definition unorderedLog : DataFrame :=
  [mappedAt 1 0 0.5 0.5; mappedAt 2 0 1.5 0.5; mappedAt 0 0 3.5 1.5]%float.

End Sample.

(** * Reasoning about [Py] computations *)

Section MonadFacts.

Context {A B : Type}.

Lemma bind_ok (c : Py A) (f : A -> Py B) t t1 a :
  c t = (t1, inr a) -> bind c f t = f a t1.
Proof. intros H. unfold bind. now rewrite H. Qed.

Lemma bind_err (c : Py A) (f : A -> Py B) t t1 e :
  c t = (t1, inl e) -> bind c f t = (t1, inl e).
Proof. intros H. unfold bind. now rewrite H. Qed.

Lemma bind_inv_ok (c : Py A) (f : A -> Py B) t t' b :
  bind c f t = (t', inr b) ->
  exists t1 a, c t = (t1, inr a) /\ f a t1 = (t', inr b).
Proof.
  unfold bind. destruct (c t) as [t1 [e | a]]; intros H.
  - discriminate.
  - now exists t1, a.
Qed.

End MonadFacts.

(** A computation is [uniform] when what it appends to the trace and what
    it returns do not depend on the trace it starts from. *)
Definition uniform {A} (c : Py A) : Prop :=
  forall t, c t = (t ++ fst (c []), snd (c [])).

Section Uniform.

Context {A B : Type}.

Lemma uniform_ret (a : A) : uniform (ret a).
Proof. intros t. cbn. now rewrite app_nil_r. Qed.

Lemma uniform_raise (e : exn) : uniform (@raise A e).
Proof. intros t. cbn. now rewrite app_nil_r. Qed.

Lemma uniform_lift (r : result A) : uniform (lift r).
Proof. intros t. cbn. now rewrite app_nil_r. Qed.

Lemma uniform_call op (r : result A) : uniform (call op r).
Proof. intros t. reflexivity. Qed.

Lemma uniform_bind (c : Py A) (f : A -> Py B) :
  uniform c -> (forall a, uniform (f a)) -> uniform (bind c f).
Proof.
  intros Hc Hf t. unfold bind. rewrite (Hc t).
  destruct (c []) as [e1 [e | a]]; cbn; [reflexivity |].
  rewrite (Hf a (t ++ e1)), (Hf a e1). cbn. now rewrite app_assoc.
Qed.

Lemma uniform_try (c h : Py A) :
  uniform c -> uniform h -> uniform (try_except c h).
Proof.
  intros Hc Hh t. unfold try_except. rewrite (Hc t).
  destruct (c []) as [e1 [e | a]]; cbn; [| reflexivity].
  rewrite (Hh (t ++ e1)), (Hh e1). cbn. now rewrite app_assoc.
Qed.

Lemma uniform_value (c : Py A) t : uniform c -> snd (c t) = snd (c []).
Proof. intros H. now rewrite (H t). Qed.


End Uniform.

Lemma uniform_emit e : uniform (emit e).
Proof. intros t. reflexivity. Qed.

Create HintDb py discriminated.
#[export] Hint Resolve uniform_ret uniform_raise uniform_lift uniform_call
  uniform_emit : py.

(** Splits a goal [uniform c] along the binds, branches and pattern
    matches of [c]. *)
Ltac uniform_step :=
  match goal with
  | |- uniform (bind _ _) => apply uniform_bind; [| intros ?]
  | |- uniform (try_except _ _) => apply uniform_try
  | |- uniform (if ?b then _ else _) => destruct b
  | |- uniform (match ?x with _ => _ end) => destruct x
  | |- uniform (let '(_, _) := ?x in _) => destruct x
  | |- uniform _ => solve [auto with py]
  end.
Ltac uniform_tac := repeat uniform_step.

Section ProcessFrameFacts.

Variable cv : Cv2.

Lemma uniform_sufficientMatches ref_matchPts :
  uniform (sufficientMatches ref_matchPts).
Proof. unfold sufficientMatches. uniform_tac. Qed.

Lemma uniform_mapGaze mapper k gray H rows :
  forall acc, uniform (mapGaze mapper k gray H rows acc).
Proof.
  induction rows as [| g rest IH]; intros acc; cbn [mapGaze].
  - auto with py.
  - destruct (denormalize gray g). uniform_tac.
Qed.

Lemma uniform_drawGaze last rows :
  forall img, uniform (drawGaze cv last rows img).
Proof.
  induction rows as [| r rest IH]; intros img; cbn [drawGaze].
  - auto with py.
  - uniform_tac.
Qed.

Lemma uniform_goodMatch k orig gray ts mapper gaze rp fp :
  uniform (goodMatch cv k orig gray ts mapper gaze rp fp).
Proof.
  unfold goodMatch.
  uniform_tac; auto using uniform_mapGaze, uniform_drawGaze.
Qed.

Lemma uniform_processFrame k frame mapper gaze ts :
  uniform (processFrame cv k frame mapper gaze ts).
Proof.
  unfold processFrame.
  uniform_tac; auto using uniform_sufficientMatches, uniform_goodMatch.
Qed.

End ProcessFrameFacts.

(** * processFrame *)

Section ProcessFrame.

Variable cv : Cv2.

(** The result of a frame without a good match. *)
Definition rawFrameOnly (k : nat) (frame : Image) (ts : float) : FrameResult :=
  mkFrameResult k frame ts frame false None None None None None.

(** The match points of a frame, when the matcher was run and gave some. *)
Definition matchPts (frame : Image) (mapper : GazeMapper)
    : option (Points * option Points) :=
  match findFeatures mapper (cvtColor cv frame COLOR_BGR2GRAY) with
  | inr (frame_kp, frame_des) =>
      if length frame_kp <? 2 then None
      else match findMatches mapper frame_kp frame_des with
           | inr (Some ref_matchPts, frame_matchPts) =>
               Some (ref_matchPts, frame_matchPts)
           | _ => None
           end
  | inl _ => None
  end.

(** The number of accepted correspondences of a frame. *)
Definition numMatches (frame : Image) (mapper : GazeMapper) : option nat :=
  option_map (fun m => length (fst m)) (matchPts frame mapper).

(** The three calls of the solver, in the order of lines 279-288. *)
Definition solvePose (mapper : GazeMapper) (ref_matchPts frame_matchPts : option Points)
    : result (Vec * Vec * Mat * Mat) :=
  match PnP_3Dmapping mapper ref_matchPts frame_matchPts with
  | inl e => inl e
  | inr (rvec, tvec) =>
      match getCameraPosition mapper rvec tvec with
      | inl e => inl e
      | inr (camPosition, camOrientation) =>
          match get2Dmapping mapper ref_matchPts frame_matchPts with
          | inl e => inl e
          | inr (ref2frame_2D, frame2ref_2D) =>
              inr (camPosition, camOrientation, ref2frame_2D, frame2ref_2D)
          end
      end
  end.

(** The calls a successful solver leaves on the trace. *)
Definition solverCalls : Trace :=
  [Call PnP; Call GetCameraPosition; Call Get2Dmapping].

(** What one gaze sample becomes in the mapped data. *)
Definition mappedFrom (k : nat) (w h : nat) (g : GazeRow) (r : MappedRow) : Prop :=
  label r = row_label g /\
  gaze_ts r = timestamp g /\
  worldFrame r = k /\
  mapped_confidence r = confidence g /\
  frame_gazeX r = (norm_pos_x g * float_of_nat w)%float /\
  frame_gazeY r = (float_of_nat h - norm_pos_y g * float_of_nat h)%float.

Lemma sufficientMatches_run ref_matchPts t :
  sufficientMatches ref_matchPts t =
  (t, inr match ref_matchPts with
          | Some pts => 10 <? length pts
          | None => false
          end).
Proof.
  unfold sufficientMatches, try_except, bind, lift, ret.
  destruct ref_matchPts as [pts |]; [| reflexivity].
  now destruct (10 <? length pts).
Qed.

(** [processFrame], branch by branch. *)
Lemma processFrame_cases k frame mapper gaze ts t :
  processFrame cv k frame mapper gaze ts t =
  let gray := cvtColor cv frame COLOR_BGR2GRAY in
  match index ts k with
  | inl e => (t, inl e)
  | inr frame_ts =>
      match findFeatures mapper gray with
      | inl e => (t ++ [Call FindFeatures], inl e)
      | inr (kp, des) =>
          if length kp <? 2
          then (t ++ [Call FindFeatures], inr (rawFrameOnly k frame frame_ts))
          else
            match findMatches mapper kp des with
            | inl e => ((t ++ [Call FindFeatures]) ++ [Call FindMatches], inl e)
            | inr (Some pts, fp) =>
                if 10 <? length pts
                then goodMatch cv k frame gray frame_ts mapper gaze (Some pts) fp
                       ((t ++ [Call FindFeatures]) ++ [Call FindMatches])
                else ((t ++ [Call FindFeatures]) ++ [Call FindMatches],
                      inr (rawFrameOnly k frame frame_ts))
            | inr (None, fp) =>
                ((t ++ [Call FindFeatures]) ++ [Call FindMatches],
                 inr (rawFrameOnly k frame frame_ts))
            end
      end
  end.
Proof.
  unfold processFrame. cbv zeta. unfold bind at 1. unfold lift at 1.
  destruct (index ts k) as [e | frame_ts]; [reflexivity |].
  unfold bind at 1. unfold call at 1.
  destruct (findFeatures mapper _) as [e | [kp des]]; [reflexivity |].
  destruct (length kp <? 2).
  - unfold bind at 1. unfold ret at 1. unfold bind.
    rewrite sufficientMatches_run. reflexivity.
  - unfold bind at 1. unfold call at 1.
    destruct (findMatches mapper kp des) as [e | [rp fp]]; [reflexivity |].
    unfold bind. rewrite sufficientMatches_run.
    destruct rp as [pts |]; [| reflexivity].
    now destruct (10 <? length pts).
Qed.

Lemma matchPts_cases frame mapper rp fp :
  matchPts frame mapper = Some (rp, fp) ->
  exists kp des,
    findFeatures mapper (cvtColor cv frame COLOR_BGR2GRAY) = inr (kp, des) /\
    (length kp <? 2) = false /\
    findMatches mapper kp des = inr (Some rp, fp).
Proof.
  unfold matchPts.
  destruct (findFeatures mapper _) as [e | [kp des]] eqn:Hff; [discriminate |].
  destruct (length kp <? 2) eqn:Hkp; [discriminate |].
  destruct (findMatches mapper kp des) as [e | [[pts |] fp']] eqn:Hfm;
    try discriminate.
  intros H. injection H as -> ->. now exists kp, des.
Qed.

(** [goodMatch] up to the gaze data: the solver calls. *)
Lemma goodMatch_cases k orig gray ts mapper gaze rp fp t :
  goodMatch cv k orig gray ts mapper gaze rp fp t =
  match solvePose mapper rp fp with
  | inl e =>
      (t ++ match PnP_3Dmapping mapper rp fp with
            | inl _ => [Call PnP]
            | inr (rvec, tvec) =>
                match getCameraPosition mapper rvec tvec with
                | inl _ => [Call PnP; Call GetCameraPosition]
                | inr _ => solverCalls
                end
            end, inl e)
  | inr (cp, co, r2f, f2r) =>
      match gaze with
      | [] =>
          (t ++ solverCalls,
           inr (mkFrameResult k orig ts orig true (Some cp) (Some co)
                              (Some r2f) (Some f2r) (Some [])))
      | _ :: _ =>
          (gazeData_df <- mapGaze mapper k gray f2r gaze [] ;;
           gazeFrame <- drawGaze cv (index_max gazeData_df) gazeData_df orig ;;
           ret (mkFrameResult k orig ts gazeFrame true (Some cp) (Some co)
                              (Some r2f) (Some f2r) (Some gazeData_df)))
            (t ++ solverCalls)
      end
  end.
Proof.
  unfold goodMatch, solvePose, solverCalls.
  unfold bind at 1. unfold call at 1.
  destruct (PnP_3Dmapping mapper rp fp) as [e | [rvec tvec]]; [reflexivity |].
  unfold bind at 1. unfold call at 1.
  destruct (getCameraPosition mapper rvec tvec) as [e | [cp co]].
  { now rewrite <- app_assoc. }
  unfold bind at 1. unfold call at 1.
  destruct (get2Dmapping mapper rp fp) as [e | [r2f f2r]].
  { now rewrite <- !app_assoc. }
  rewrite <- !app_assoc. cbn [app].
  destruct gaze; reflexivity.
Qed.

Lemma goodMatch_flag k orig gray ts mapper gaze rp fp t fr :
  snd (goodMatch cv k orig gray ts mapper gaze rp fp t) = inr fr ->
  foundGoodMatch fr = true.
Proof.
  rewrite goodMatch_cases.
  destruct (solvePose mapper rp fp) as [e | [[[cp co] r2f] f2r]];
    [discriminate |].
  destruct gaze as [| g gaze].
  - cbn. intros H. injection H as <-. reflexivity.
  - unfold bind.
    destruct (mapGaze _ _ _ _ _ _ _) as [t1 [e | df]]; [discriminate |].
    destruct (drawGaze _ _ _ _ _) as [t2 [e | img]]; [discriminate |].
    cbn. intros H. injection H as <-. reflexivity.
Qed.

(** The rows [mapGaze] appends: one per gaze sample, in order. *)
Lemma mapGaze_rows mapper k gray f2r rows :
  forall acc t t' df,
    mapGaze mapper k gray f2r rows acc t = (t', inr df) ->
    exists new,
      df = acc ++ new /\
      Forall2 (mappedFrom k (shape1 gray) (shape0 gray)) rows new.
Proof.
  induction rows as [| g rest IH]; intros acc t t' df; cbn [mapGaze].
  - unfold ret. intros H. injection H as _ <-.
    exists []. split; [now rewrite app_nil_r | constructor].
  - unfold denormalize. intros H.
    apply bind_inv_ok in H as (t1 & [rx ry] & _ & H).
    apply bind_inv_ok in H as (t2 & obj & _ & H).
    apply bind_inv_ok in H as (t3 & [[ox oy] oz] & _ & H).
    apply IH in H as (new & -> & Hnew).
    eexists (_ :: new). split.
    + rewrite <- app_assoc. reflexivity.
    + constructor; [| exact Hnew]. repeat split.
Qed.

(** A frame with match points goes by their number. *)
Lemma processFrame_matched k frame mapper gaze ts t frame_ts rp fp :
  index ts k = inr frame_ts ->
  matchPts frame mapper = Some (rp, fp) ->
  processFrame cv k frame mapper gaze ts t =
  if 10 <? length rp
  then goodMatch cv k frame (cvtColor cv frame COLOR_BGR2GRAY) frame_ts
                 mapper gaze (Some rp) fp
                 (t ++ [Call FindFeatures; Call FindMatches])
  else (t ++ [Call FindFeatures; Call FindMatches],
        inr (rawFrameOnly k frame frame_ts)).
Proof.
  intros Hts Hm. apply matchPts_cases in Hm as (kp & des & Hff & Hkp & Hfm).
  rewrite processFrame_cases. cbv zeta.
  rewrite Hts, Hff, Hkp, Hfm, <- app_assoc. reflexivity.
Qed.

(** Every result of [processFrame] is either the raw frame, for a frame
    without more than ten match points, or a result of [goodMatch]. *)
Lemma processFrame_result k frame mapper gaze ts t fr :
  snd (processFrame cv k frame mapper gaze ts t) = inr fr ->
  exists frame_ts,
    index ts k = inr frame_ts /\
    ((fr = rawFrameOnly k frame frame_ts /\
      forall n, numMatches frame mapper = Some n -> n <= 10) \/
     (exists rp fp,
        matchPts frame mapper = Some (rp, fp) /\ 10 < length rp /\
        foundGoodMatch fr = true)).
Proof.
  rewrite processFrame_cases. cbv zeta. unfold numMatches, matchPts.
  destruct (index ts k) as [e | frame_ts]; [discriminate |].
  intros H. exists frame_ts. split; [reflexivity |].
  destruct (findFeatures mapper _) as [e | [kp des]]; [discriminate |].
  destruct (length kp <? 2).
  { left. injection H as <-. split; [reflexivity | discriminate]. }
  destruct (findMatches mapper kp des) as [e | [[pts |] fp]]; [discriminate | |].
  - destruct (10 <? length pts) eqn:Hn.
    + right. exists pts, fp. apply Nat.ltb_lt in Hn.
      eauto using goodMatch_flag.
    + left. injection H as <-. apply Nat.ltb_ge in Hn.
      split; [reflexivity |]. cbn. intros n Hsome. injection Hsome as <-. lia.
  - left. injection H as <-. split; [reflexivity | discriminate].
Qed.

(** ** The claims about [processFrame] *)

(** C1, as amended. For a frame with more than ten correspondences
    [processFrame] has no handler around the solver: when one of the solver
    calls raises, the exception reaches the caller and no frame result is
    returned; and every result that is returned for such a frame has
    [foundGoodMatch = true]. *)
Theorem processFrame_solver_failure_propagates
    k frame mapper gaze ts t frame_ts rp fp :
  index ts k = inr frame_ts ->
  matchPts frame mapper = Some (rp, fp) ->
  10 < length rp ->
  let out := processFrame cv k frame mapper gaze ts t in
  (forall e, solvePose mapper (Some rp) fp = inl e -> snd out = inl e) /\
  (forall fr, snd out = inr fr -> foundGoodMatch fr = true).
Proof.
  intros Hts Hm Hn out. subst out.
  rewrite (processFrame_matched _ _ _ gaze _ t _ _ _ Hts Hm).
  apply Nat.ltb_lt in Hn. rewrite Hn. split.
  - intros e He. rewrite goodMatch_cases, He. reflexivity.
  - intros fr. apply goodMatch_flag.
Qed.

(** C2. A result of [processFrame] has [foundGoodMatch = true] exactly when
    the frame has more than ten accepted correspondences. With eleven the
    flag is true (and a result is returned when the solver succeeds on a
    frame without gaze samples); with ten the result is the raw frame: the
    flag is false, the overlay is the original frame, no gaze data and no
    transform is stored and the mapper is called for the features and the
    matches only. *)
Theorem processFrame_good_match_threshold k frame mapper gaze ts t :
  let out := processFrame cv k frame mapper gaze ts t in
  (forall fr, snd out = inr fr ->
     (foundGoodMatch fr = true <->
      exists n, numMatches frame mapper = Some n /\ 10 < n)) /\
  (numMatches frame mapper = Some 11 ->
     (forall fr, snd out = inr fr -> foundGoodMatch fr = true) /\
     (forall frame_ts rp fp pose,
        index ts k = inr frame_ts ->
        matchPts frame mapper = Some (rp, fp) ->
        solvePose mapper (Some rp) fp = inr pose ->
        gaze = [] ->
        exists fr, snd out = inr fr /\ foundGoodMatch fr = true)) /\
  (numMatches frame mapper = Some 10 ->
     forall frame_ts, index ts k = inr frame_ts ->
       out = (t ++ [Call FindFeatures; Call FindMatches],
              inr (rawFrameOnly k frame frame_ts)) /\
       foundGoodMatch (rawFrameOnly k frame frame_ts) = false /\
       origFrame (rawFrameOnly k frame frame_ts) = frame /\
       gazeFrame (rawFrameOnly k frame frame_ts) = frame /\
       gazeData (rawFrameOnly k frame frame_ts) = None /\
       frame2ref_2Dtrans (rawFrameOnly k frame frame_ts) = None).
Proof.
  intros out. subst out. split; [| split].
  - intros fr H.
    apply processFrame_result in H as (frame_ts & Hts & [[-> Hle] | Hgood]).
    + split; [discriminate |]. intros (n & Hn & Hlt). apply Hle in Hn. lia.
    + destruct Hgood as (rp & fp & Hm & Hlt & Hflag).
      split; [| now intros _]. intros _. exists (length rp).
      unfold numMatches. now rewrite Hm.
  - intros H11. split.
    + intros fr H.
      apply processFrame_result in H as (frame_ts & Hts & [[-> Hle] | Hgood]).
      * apply Hle in H11. lia.
      * now destruct Hgood as (rp & fp & _ & _ & Hflag).
    + intros frame_ts rp fp [[[cp co] r2f] f2r] Hts Hm Hpose ->.
      assert (Hlen : length rp = 11).
      { unfold numMatches in H11. rewrite Hm in H11. now injection H11. }
      rewrite (processFrame_matched _ _ _ [] _ t _ _ _ Hts Hm), Hlen.
      change (10 <? 11) with true. cbv iota.
      rewrite goodMatch_cases, Hpose. eexists. split; reflexivity.
  - intros H10 frame_ts Hts. repeat split.
    unfold numMatches in H10.
    destruct (matchPts frame mapper) as [[rp fp] |] eqn:Hm; [| discriminate].
    injection H10 as Hlen. cbn in Hlen.
    rewrite (processFrame_matched _ _ _ gaze _ t _ _ _ Hts Hm), Hlen. reflexivity.
Qed.

(** C3. On a frame with fewer than two key points [processFrame] never
    calls the matcher, every result it returns has [foundGoodMatch = false],
    and for a frame that has a timestamp it returns the raw frame. *)
Theorem processFrame_few_keypoints k frame mapper gaze ts t kp des :
  findFeatures mapper (cvtColor cv frame COLOR_BGR2GRAY) = inr (kp, des) ->
  length kp < 2 ->
  let out := processFrame cv k frame mapper gaze ts t in
  (exists evs, fst out = t ++ evs /\ ~ In (Call FindMatches) evs) /\
  (forall fr, snd out = inr fr -> foundGoodMatch fr = false) /\
  (forall frame_ts,
     index ts k = inr frame_ts ->
     snd out = inr (rawFrameOnly k frame frame_ts)).
Proof.
  intros Hff Hkp out. subst out. apply Nat.ltb_lt in Hkp.
  rewrite processFrame_cases. cbv zeta. rewrite Hff, Hkp.
  destruct (index ts k) as [e | frame_ts]; cbn [fst snd].
  - split; [| split]; try discriminate.
    exists []. split; [now rewrite app_nil_r | intros []].
  - split; [| split].
    + exists [Call FindFeatures]. split; [reflexivity |].
      intros [H | []]. discriminate.
    + intros fr H. injection H as <-. reflexivity.
    + intros ts' H. injection H as <-. reflexivity.
Qed.

(** C7. Every mapped gaze point of a frame result comes from the gaze
    sample at the same place of the frame's samples, with frame pixel
    x = norm_x * width and frame pixel y = height - norm_y * height, where
    width and height are the dimensions of the (gray) frame, which are the
    frame's own when the colour conversion keeps them. *)
Theorem processFrame_denormalizes k frame mapper gaze ts t fr df :
  snd (processFrame cv k frame mapper gaze ts t) = inr fr ->
  gazeData fr = Some df ->
  let frame_gray := cvtColor cv frame COLOR_BGR2GRAY in
  let at_size (width height : nat) (sample : GazeRow) (point : MappedRow) :=
    frame_gazeX point = (norm_pos_x sample * float_of_nat width)%float /\
    frame_gazeY point =
      (float_of_nat height - norm_pos_y sample * float_of_nat height)%float in
  Forall2 (at_size (shape1 frame_gray) (shape0 frame_gray)) gaze df /\
  (shape0 frame_gray = shape0 frame -> shape1 frame_gray = shape1 frame ->
   Forall2 (at_size (shape1 frame) (shape0 frame)) gaze df).
Proof.
  intros H Hdf frame_gray at_size.
  assert (Hrows : Forall2 (mappedFrom k (shape1 frame_gray) (shape0 frame_gray))
                          gaze df).
  { rewrite processFrame_cases in H. cbv zeta in H.
    destruct (index ts k) as [e | frame_ts]; [discriminate |].
    destruct (findFeatures mapper _) as [e | [kp des]]; [discriminate |].
    destruct (length kp <? 2);
      [cbn [snd] in H; injection H as <-; discriminate |].
    destruct (findMatches mapper kp des) as [e | [[pts |] fp]];
      [discriminate | | cbn [snd] in H; injection H as <-; discriminate].
    destruct (10 <? length pts);
      [| cbn [snd] in H; injection H as <-; discriminate].
    rewrite goodMatch_cases in H.
    destruct (solvePose mapper (Some pts) fp) as [e | [[[cp co] r2f] f2r]];
      [discriminate |].
    destruct gaze as [| g gaze].
    - cbn [snd] in H. injection H as <-. injection Hdf as <-. constructor.
    - fold frame_gray in H. remember (g :: gaze) as rows. revert H.
      unfold bind.
      destruct (mapGaze mapper k frame_gray f2r rows [] _)
        as [t1 [e | rowsOut]] eqn:Hmap; [discriminate |].
      destruct (drawGaze cv _ rowsOut frame t1) as [t2 [e | img]];
        [discriminate |].
      cbn. intros H. injection H as <-. injection Hdf as <-.
      apply mapGaze_rows in Hmap as (new & -> & Hnew). exact Hnew. }
  split; [| intros <- <-];
    (eapply Forall2_impl; [| exact Hrows]);
    intros g r (_ & _ & _ & _ & Hx & Hy); split; assumption.
Qed.


End ProcessFrame.

(** * createHeatmap *)

Section Heatmap.

Variable cv : Cv2.
Variable plt : Plotting.

(** Drawing touches the image only: nothing is added to the trace. *)
Definition silent {A} (c : Py A) : Prop := forall t, c t = (t, snd (c [])).

Lemma silent_ret {A} (a : A) : silent (ret a).
Proof. intros t. reflexivity. Qed.

Lemma silent_raise {A} e : silent (@raise A e).
Proof. intros t. reflexivity. Qed.

Lemma silent_lift {A} (r : result A) : silent (lift r).
Proof. intros t. reflexivity. Qed.

Lemma silent_bind {A B} (c : Py A) (f : A -> Py B) :
  silent c -> (forall a, silent (f a)) -> silent (bind c f).
Proof.
  intros Hc Hf t. unfold bind. rewrite (Hc t).
  destruct (snd (c [])) as [e | a] eqn:E.
  - rewrite (Hc []), E. reflexivity.
  - rewrite (Hf a t), (Hc []), E, (Hf a []). reflexivity.
Qed.

Lemma silent_uniform {A} (c : Py A) : silent c -> uniform c.
Proof. intros H t. rewrite (H t), (H []). cbn. now rewrite app_nil_r. Qed.

Ltac silent_step :=
  match goal with
  | |- silent (bind _ _) => apply silent_bind; [| intros ?]
  | |- silent (if ?b then _ else _) => destruct b
  | |- silent (match ?x with _ => _ end) => destruct x
  | |- silent _ =>
      solve [apply silent_ret | apply silent_raise | apply silent_lift | auto]
  end.

Lemma silent_drawTrace first rows :
  forall prev img, silent (drawTrace cv first rows prev img).
Proof.
  induction rows as [| r rest IH]; intros prev img; cbn [drawTrace].
  - apply silent_ret.
  - repeat silent_step.
Qed.

Lemma silent_drawLast last rows :
  forall img, silent (drawLast cv last rows img).
Proof.
  induction rows as [| r rest IH]; intros img; cbn [drawLast].
  - apply silent_ret.
  - repeat silent_step.
Qed.

Lemma uniform_createHeatmap log k refStim :
  uniform (createHeatmap cv plt log k refStim).
Proof.
  unfold createHeatmap. cbv zeta.
  uniform_tac; auto using silent_uniform, silent_drawTrace, silent_drawLast.
Qed.


(** [createHeatmap], branch by branch. *)
Lemma createHeatmap_cases log k refStim t :
  createHeatmap cv plt log k refStim t =
  let heatmap_df := upToFrame log k in
  let xArr := map ref_gazeX heatmap_df in
  let yArr := map ref_gazeY heatmap_df in
  if length heatmap_df <=? 2 then (t, inr refStim)
  else
    (t ++ [Kdeplot xArr yArr],
     match kde_canvas plt (cvtColor cv refStim COLOR_BGR2RGB)
                      (shape1 refStim) (shape0 refStim) xArr yArr with
     | inl e => inl e
     | inr canvas =>
         match snd (drawTrace cv (index_min heatmap_df) heatmap_df None
                              canvas []) with
         | inl e => inl e
         | inr traced =>
             match snd (drawLast cv (index_max heatmap_df)
                          (filter (fun r => worldFrame r =? k) heatmap_df)
                          traced []) with
             | inl e => inl e
             | inr marked => inr (cvtColor cv marked COLOR_BGR2RGB)
             end
         end
     end).
Proof.
  unfold createHeatmap. cbv zeta.
  destruct (length (upToFrame log k) <=? 2); [reflexivity |].
  unfold bind at 1. unfold emit at 1. unfold bind at 1. unfold lift at 1.
  destruct (kde_canvas plt _ _ _ _ _) as [e | canvas]; [reflexivity |].
  unfold bind at 1. rewrite (silent_drawTrace _ _ _ _ (t ++ _)).
  destruct (snd (drawTrace cv _ _ None canvas [])) as [e | traced];
    [reflexivity |].
  unfold bind at 1. rewrite (silent_drawLast _ _ _ (t ++ _)).
  destruct (snd (drawLast cv _ _ traced [])) as [e | marked]; reflexivity.
Qed.


(** The gaze trace of lines 409-423 takes the row with the smallest label
    for the first one: when the first of three or more rows carries another
    label, the previous point is read before it is set and [createHeatmap]
    returns no image. *)
Theorem createHeatmap_first_label_not_smallest log k refStim t r rest :
  upToFrame log k = r :: rest ->
  2 <= length rest ->
  label r <> index_min (r :: rest) ->
  exists e, snd (createHeatmap cv plt log k refStim t) = inl e.
Proof.
  intros Hdf Hlen Hlabel. rewrite createHeatmap_cases. cbv zeta. rewrite Hdf.
  replace (length (r :: rest) <=? 2) with false
    by (symmetry; apply Nat.leb_gt; cbn [length]; lia).
  cbn [snd].
  destruct (kde_canvas plt _ _ _ _ _) as [e | canvas]; [now exists e |].
  assert (Htrace : exists e,
             snd (drawTrace cv (index_min (r :: rest)) (r :: rest) None
                            canvas []) = inl e).
  { cbn [drawTrace]. apply Z.eqb_neq in Hlabel. rewrite Hlabel.
    unfold bind, lift, raise.
    destruct (int (ref_gazeX r)) as [e | x]; [now exists e |].
    destruct (int (ref_gazeY r)) as [e | y]; [now exists e |].
    now eexists. }
  destruct Htrace as [e ->]. now exists e.
Qed.






(** The heat map of frame [k] depends on the rows of the log up to frame
    [k] only: two logs with the same rows up to [k] give the same heat
    map, and rows of later frames appended to a log change nothing. *)
Theorem createHeatmap_ignores_later_frames log later k refStim t :
  Forall (fun row => k < worldFrame row) later ->
  createHeatmap cv plt (log ++ later) k refStim t =
  createHeatmap cv plt log k refStim t.
Proof.
  intros Hlater.
  assert (Hsame : upToFrame (log ++ later) k = upToFrame log k).
  { unfold upToFrame. rewrite filter_app.
    replace (filter (fun r => worldFrame r <=? k) later) with (@nil MappedRow);
      [apply app_nil_r |].
    symmetry. induction Hlater as [| row later Hrow _ IH]; [reflexivity |].
    cbn [filter]. apply Nat.leb_gt in Hrow. now rewrite Hrow. }
  rewrite !createHeatmap_cases. cbv zeta. now rewrite Hsame.
Qed.

End Heatmap.

(** * More on processFrame: what a frame result holds *)

Section FrameResults.

Variable cv : Cv2.

(** A mapped row and the gaze sample it was made from: the sample's label,
    time and confidence, the frame number, the pixel position, and what the
    mapper gave for it through the homography [f2r]. *)
Definition mappedThrough (mapper : GazeMapper) (k w h : nat) (f2r : Mat)
    (g : GazeRow) (r : MappedRow) : Prop :=
  mappedFrom k w h g r /\
  mapCoords2D mapper (frame_gazeX r, frame_gazeY r) f2r
    = inr (ref_gazeX r, ref_gazeY r) /\
  ref2obj mapper [(ref_gazeX r, ref_gazeY r)]
    = inr [obj_gazeX r; obj_gazeY r; obj_gazeZ r].

(** The float is a NaN. *)
Definition isNaN (x : float) : Prop := PrimFloat.is_nan x = true.

Lemma silent_drawGaze last rows :
  forall img, silent (drawGaze cv last rows img).
Proof.
  induction rows as [| r rest IH]; intros img; cbn [drawGaze].
  - apply silent_ret.
  - apply silent_bind; [apply silent_lift | intros x].
    apply silent_bind; [apply silent_lift | intros y].
    destruct (label r =? last)%Z; apply IH.
Qed.

Lemma mapGaze_through mapper k gray f2r rows :
  forall acc t t' df,
    mapGaze mapper k gray f2r rows acc t = (t', inr df) ->
    exists new,
      df = acc ++ new /\
      Forall2 (mappedThrough mapper k (shape1 gray) (shape0 gray) f2r)
              rows new.
Proof.
  induction rows as [| g rest IH]; intros acc t t' df; cbn [mapGaze].
  - unfold ret. intros H. injection H as _ <-.
    exists []. split; [now rewrite app_nil_r | constructor].
  - unfold denormalize. intros H.
    apply bind_inv_ok in H as (t1 & [rx ry] & Hmap & H).
    apply bind_inv_ok in H as (t2 & obj & Hobj & H).
    apply bind_inv_ok in H as (t3 & [[ox oy] oz] & Hun & H).
    apply IH in H as (new & -> & Hnew).
    unfold call in Hmap, Hobj. injection Hmap as _ Hmap.
    injection Hobj as _ Hobj. unfold lift, unpack3 in Hun.
    destruct obj as [| a [| b [| c [| d obj]]]]; try discriminate.
    injection Hun as _ <- <- <-.
    eexists (_ :: new). split.
    + rewrite <- app_assoc. reflexivity.
    + constructor; [| exact Hnew]. repeat split; assumption.
Qed.

(** Everything a result of [processFrame] holds. *)
Lemma processFrame_result_full k frame mapper gaze ts t fr :
  snd (processFrame cv k frame mapper gaze ts t) = inr fr ->
  let gray := cvtColor cv frame COLOR_BGR2GRAY in
  exists ts_k,
    index ts k = inr ts_k /\
    ((fr = rawFrameOnly k frame ts_k /\
      forall n, numMatches cv frame mapper = Some n -> n <= 10) \/
     (exists rp fp cp co r2f f2r df overlay,
        matchPts cv frame mapper = Some (rp, fp) /\
        10 < length rp /\
        solvePose mapper (Some rp) fp = inr (cp, co, r2f, f2r) /\
        Forall2 (mappedThrough mapper k (shape1 gray) (shape0 gray) f2r)
                gaze df /\
        snd (drawGaze cv (index_max df) df frame []) = inr overlay /\
        fr = mkFrameResult k frame ts_k overlay true (Some cp) (Some co)
                           (Some r2f) (Some f2r) (Some df))).
Proof.
  intros H gray.
  pose proof (processFrame_result cv _ _ _ _ _ _ _ H)
    as (ts_k & Hts & [Hraw | (rp & fp & Hm & Hlt & _)]).
  { exists ts_k. auto. }
  exists ts_k. split; [assumption |]. right.
  rewrite (processFrame_matched cv _ _ _ gaze _ t _ _ _ Hts Hm) in H.
  apply Nat.ltb_lt in Hlt as Hb. rewrite Hb in H.
  rewrite goodMatch_cases in H. fold gray in H.
  destruct (solvePose mapper (Some rp) fp) as [e | [[[cp co] r2f] f2r]]
    eqn:Hpose; [discriminate |].
  exists rp, fp, cp, co, r2f, f2r.
  destruct gaze as [| g gaze].
  - cbn [snd] in H. injection H as <-. exists [], frame.
    repeat split; auto.
  - remember (g :: gaze) as rows. revert H. unfold bind.
    destruct (mapGaze mapper k gray f2r rows [] _)
      as [t1 [e | df]] eqn:Hmap; [discriminate |].
    rewrite (silent_drawGaze _ _ _ t1).
    destruct (snd (drawGaze cv (index_max df) df frame []))
      as [e | overlay] eqn:Hdraw; [discriminate |].
    cbn. intros H. injection H as <-.
    apply mapGaze_through in Hmap as (new & -> & Hnew).
    exists new, overlay. repeat split; auto.
Qed.

Lemma processFrame_origFrame k frame mapper gaze ts t fr :
  snd (processFrame cv k frame mapper gaze ts t) = inr fr ->
  origFrame fr = frame.
Proof.
  intros H. apply processFrame_result_full in H. cbv zeta in H.
  destruct H as (ts_k & _ & [[-> _] | H]); [reflexivity |].
  now destruct H as (rp & fp & cp & co & r2f & f2r & df & ov
                     & _ & _ & _ & _ & _ & ->).
Qed.

Lemma processFrame_worldFrame k frame mapper gaze ts t fr df :
  snd (processFrame cv k frame mapper gaze ts t) = inr fr ->
  gazeData fr = Some df ->
  Forall (fun r => worldFrame r = k) df.
Proof.
  intros H Hdf. apply processFrame_result_full in H. cbv zeta in H.
  destruct H as (ts_k & _ & [[-> _] | H]); [discriminate |].
  destruct H as (rp & fp & cp & co & r2f & f2r & df' & ov
                 & _ & _ & _ & Hrows & _ & ->).
  cbn in Hdf. injection Hdf as ->. clear - Hrows.
  induction Hrows as [| g r gaze df Hgr _ IH]; constructor; [| exact IH].
  now destruct Hgr as ((_ & _ & Hw & _) & _).
Qed.

(** A frame number without a timestamp stops [processFrame] before it calls
    anything: [IndexError], the trace untouched. And a result is returned
    only for a frame number that has a timestamp; it carries that
    timestamp, the frame number and the frame itself. *)
Theorem processFrame_timestamp_bound k frame mapper gaze ts t :
  (length ts <= k ->
   processFrame cv k frame mapper gaze ts t = (t, inl IndexError)) /\
  (forall fr,
     snd (processFrame cv k frame mapper gaze ts t) = inr fr ->
     k < length ts /\
     nth_error ts k = Some (frame_ts fr) /\
     frameNum fr = k /\
     origFrame fr = frame).
Proof.
  split.
  - intros Hk. rewrite processFrame_cases. cbv zeta. unfold index.
    now rewrite (proj2 (nth_error_None ts k) Hk).
  - intros fr H. apply processFrame_result_full in H. cbv zeta in H.
    destruct H as (ts_k & Hts & H). unfold index in Hts.
    destruct (nth_error ts k) as [x |] eqn:Hnth; [| discriminate].
    injection Hts as ->.
    assert (Hfields : frame_ts fr = ts_k /\ frameNum fr = k /\
                      origFrame fr = frame).
    { destruct H as [[-> _] | (rp & fp & cp & co & r2f & f2r & df & ov & H)].
      - repeat split.
      - destruct H as (_ & _ & _ & _ & _ & ->). repeat split. }
    destruct Hfields as (-> & -> & ->). repeat split.
    apply nth_error_Some. congruence.
Qed.

(** The mapped gaze data of a frame result has one row per gaze sample of
    the frame, in the order of the samples; each row carries the label,
    time and confidence of its sample and the frame number, and its
    reference and object coordinates are what [mapCoords2D], through the
    frame-to-reference transform stored in the same result, and [ref2obj]
    gave for its pixel position. *)
Theorem processFrame_maps_each_sample k frame mapper gaze ts t fr df :
  snd (processFrame cv k frame mapper gaze ts t) = inr fr ->
  gazeData fr = Some df ->
  exists f2r,
    frame2ref_2Dtrans fr = Some f2r /\
    length df = length gaze /\
    map label df = map row_label gaze /\
    map gaze_ts df = map timestamp gaze /\
    map mapped_confidence df = map confidence gaze /\
    Forall (fun r => worldFrame r = k) df /\
    Forall (fun r =>
              mapCoords2D mapper (frame_gazeX r, frame_gazeY r) f2r
                = inr (ref_gazeX r, ref_gazeY r) /\
              ref2obj mapper [(ref_gazeX r, ref_gazeY r)]
                = inr [obj_gazeX r; obj_gazeY r; obj_gazeZ r]) df.
Proof.
  intros H Hdf. apply processFrame_result_full in H. cbv zeta in H.
  destruct H as (ts_k & _ & [[-> _] | H]); [discriminate |].
  destruct H as (rp & fp & cp & co & r2f & f2r & df' & ov & _ & _ & _ & Hrows & _ & ->).
  cbn in Hdf. injection Hdf as ->. exists f2r. split; [reflexivity |].
  clear - Hrows. induction Hrows as [| g r gaze df Hgr _ IH].
  - repeat split; constructor.
  - destruct IH as (Hlen & Hlab & Hts & Hconf & Hk & Hmap).
    destruct Hgr as ((Hl & Ht & Hw & Hc & _ & _) & Hm & Ho).
    cbn [length map].
    rewrite Hlen, Hlab, Hts, Hconf, Hl, Ht, Hc.
    repeat split; constructor; auto.
Qed.

(** The optional entries of a frame result go with its flag. Without a good
    match the result is the raw frame: no transform, no camera pose, no
    gaze data, the overlay the frame itself. With a good match all of them
    are present: the camera pose and the two transforms are the solver's
    for the match points of the frame, and the overlay is the frame with
    the gaze circles drawn on it. *)
Theorem processFrame_output_contract k frame mapper gaze ts t fr :
  snd (processFrame cv k frame mapper gaze ts t) = inr fr ->
  (foundGoodMatch fr = false ->
   gazeFrame fr = frame /\ gazeData fr = None /\
   ref2frame_2Dtrans fr = None /\ frame2ref_2Dtrans fr = None /\
   camPosition fr = None /\ camOrientation fr = None) /\
  (foundGoodMatch fr = true ->
   exists rp fp cp co r2f f2r df,
     matchPts cv frame mapper = Some (rp, fp) /\
     solvePose mapper (Some rp) fp = inr (cp, co, r2f, f2r) /\
     camPosition fr = Some cp /\ camOrientation fr = Some co /\
     ref2frame_2Dtrans fr = Some r2f /\ frame2ref_2Dtrans fr = Some f2r /\
     gazeData fr = Some df /\
     snd (drawGaze cv (index_max df) df frame []) = inr (gazeFrame fr)).
Proof.
  intros H. apply processFrame_result_full in H. cbv zeta in H.
  destruct H as (ts_k & _ & [[-> _] | H]).
  - split; [intros _; repeat split | discriminate].
  - destruct H as (rp & fp & cp & co & r2f & f2r & df & ov
                   & Hm & _ & Hpose & _ & Hdraw & ->).
    split; [discriminate |]. intros _.
    exists rp, fp, cp, co, r2f, f2r, df. repeat split; assumption.
Qed.

Lemma int_nan x : isNaN x -> int x = inl ValueError.
Proof.
  unfold isNaN, int, Prim2SF. intros H. now rewrite H.
Qed.

Lemma nan_mul x y : isNaN x -> isNaN (x * y)%float.
Proof.
  unfold isNaN. intros H.
  assert (Hx : Prim2SF x = S754_nan) by (unfold Prim2SF; now rewrite H).
  pose proof (mul_spec x y) as Hm. rewrite Hx in Hm. cbn in Hm.
  destruct (PrimFloat.is_nan (x * y)) eqn:Hn; [reflexivity |].
  exfalso. unfold Prim2SF in Hm. rewrite Hn in Hm.
  repeat match type of Hm with
         | (if ?b then _ else _) = _ => destruct b
         | (let (_, _) := ?p in _) = _ => destruct p
         | match ?z with _ => _ end = _ => destruct z
         end; discriminate.
Qed.

Lemma nan_sub x y : isNaN y -> isNaN (x - y)%float.
Proof.
  unfold isNaN. intros H.
  assert (Hy : Prim2SF y = S754_nan) by (unfold Prim2SF; now rewrite H).
  pose proof (sub_spec x y) as Hm. rewrite Hy in Hm.
  assert (Hn : SF64sub (Prim2SF x) S754_nan = S754_nan)
    by (now destruct (Prim2SF x)).
  rewrite Hn in Hm. clear Hn.
  destruct (PrimFloat.is_nan (x - y)) eqn:Hn; [reflexivity |].
  exfalso. unfold Prim2SF in Hm. rewrite Hn in Hm.
  repeat match type of Hm with
         | (if ?b then _ else _) = _ => destruct b
         | (let (_, _) := ?p in _) = _ => destruct p
         | match ?z with _ => _ end = _ => destruct z
         end; discriminate.
Qed.

(** A row with a NaN pixel coordinate stops the drawing of the gaze
    circles. *)
Lemma drawGaze_nan last rows :
  forall img t,
    Exists (fun r => isNaN (frame_gazeX r) \/ isNaN (frame_gazeY r)) rows ->
    exists e, snd (drawGaze cv last rows img t) = inl e.
Proof.
  induction rows as [| r rest IH]; intros img t Hex; [inversion Hex |].
  cbn [drawGaze]. unfold bind at 1. unfold lift at 1.
  destruct (int (frame_gazeX r)) as [e | x] eqn:Hx; [now exists e |].
  unfold bind at 1. unfold lift at 1.
  destruct (int (frame_gazeY r)) as [e | y] eqn:Hy; [now exists e |].
  inversion Hex as [? ? [Hr | Hr] | ? ? Hrest]; subst.
  - rewrite (int_nan _ Hr) in Hx. discriminate.
  - rewrite (int_nan _ Hr) in Hy. discriminate.
  - destruct (label r =? last)%Z; now apply IH.
Qed.

(** A gaze sample with a NaN normalized coordinate makes [processFrame]
    raise on a frame with more than ten correspondences: no result is
    returned for the frame (if nothing else raises first, [int] of the NaN
    pixel position raises when the circles are drawn). *)
Theorem processFrame_nan_sample k frame mapper gaze ts t g n :
  numMatches cv frame mapper = Some n ->
  10 < n ->
  In g gaze ->
  isNaN (norm_pos_x g) \/ isNaN (norm_pos_y g) ->
  exists e, snd (processFrame cv k frame mapper gaze ts t) = inl e.
Proof.
  intros Hn Hlt Hin Hnan.
  destruct (snd (processFrame cv k frame mapper gaze ts t))
    as [e | fr] eqn:H; [now exists e |].
  exfalso. apply processFrame_result_full in H. cbv zeta in H.
  destruct H as (ts_k & _ & [[_ Hle] | H]).
  { apply Hle in Hn. lia. }
  destruct H as (rp & fp & cp & co & r2f & f2r & df & ov
                 & _ & _ & _ & Hrows & Hdraw & _).
  assert (Hex : Exists (fun r => isNaN (frame_gazeX r) \/
                                 isNaN (frame_gazeY r)) df).
  { clear - Hrows Hin Hnan. induction Hrows as [| g' r gaze df Hgr _ IH].
    - destruct Hin.
    - destruct Hin as [-> | Hin].
      + apply Exists_cons_hd.
        destruct Hgr as ((_ & _ & _ & _ & -> & ->) & _).
        destruct Hnan as [Hx | Hy];
          [left; now apply nan_mul | right; now apply nan_sub, nan_mul].
      + apply Exists_cons_tl. now apply IH. }
  destruct (drawGaze_nan (index_max df) df frame [] Hex) as [e He].
  rewrite He in Hdraw. discriminate.
Qed.



End FrameResults.

(** * processRecording *)

Section RecordingFacts.

Variable cv : Cv2.
Variable plt : Plotting.
Variable rec : Recording.

(** The rows of the cumulative log; none while it is unbound. *)
Definition rowsOf (master : option DataFrame) : DataFrame :=
  match master with
  | Some df => df
  | None => []
  end.

(** The mapped gaze points of a frame result. *)
Definition mappedPoints (fr : FrameResult) : DataFrame := rowsOf (gazeData fr).

(** The frame handed to [processFrame] (line 175). *)
Definition cameraFrame (frame : Image) : Image :=
  undistort cv frame (camera_matrix (camCalib rec)) (dist_coefs (camCalib rec)).

(** The gaze samples of frame [k] (line 172). *)
Definition gazeOf (k : nat) : list GazeRow :=
  filter (fun g => row_index g =? k) (gazeWorld_df rec).

(** What [processFrame] gives for frame number [k] of the video. *)
Definition frameOutcome (k : nat) (frame : Image) : result FrameResult :=
  snd (processFrame cv k (cameraFrame frame) (mapper rec) (gazeOf k)
                    (frame_timestamps rec) []).

(** The calls [processFrame] makes for frame number [k] of the video. *)
Definition frameCalls (k : nat) (frame : Image) : Trace :=
  fst (processFrame cv k (cameraFrame frame) (mapper rec) (gazeOf k)
                    (frame_timestamps rec) []).

(** The frame results of numbered frames, in order. *)
Definition resultsOf (numbered : list (nat * Image)) : list FrameResult :=
  flat_map (fun kf => match frameOutcome (fst kf) (snd kf) with
                      | inr fr => [fr]
                      | inl _ => []
                      end) numbered.

(** The frames of the video that the loop processes, with their numbers:
    the first 445, numbered from 0. *)
Definition processedFrames : list (nat * Image) :=
  combine (seq 0 445) (frames (world_mp4 rec)).

Definition frameResults : list FrameResult := resultsOf processedFrames.

(** The log after one more frame result. *)
Definition nextMaster (master : option DataFrame) (fr : FrameResult)
    : option DataFrame :=
  if foundGoodMatch fr then Some (rowsOf master ++ mappedPoints fr)
  else master.

(** The four images written for a frame. *)
Definition frameWrites (orig gaze summaryRef summaryWorld : Image) : Trace :=
  [WriterWrite Orig orig; WriterWrite Gaze gaze;
   WriterWrite SummaryRef summaryRef; WriterWrite SummaryWorld summaryWorld].

(** What the loop does when it ends (lines 210-214). *)
Definition releases : Trace :=
  [CaptureRelease; WriterRelease Orig; WriterRelease Gaze;
   WriterRelease SummaryRef; WriterRelease SummaryWorld].

(** The writers as lines 143-157 open them. *)
Definition writersOpened : Trace :=
  let vid := world_mp4 rec in
  [WriterOpen Orig (CAP_PROP_FRAME_WIDTH vid) (CAP_PROP_FRAME_HEIGHT vid);
   WriterOpen Gaze (CAP_PROP_FRAME_WIDTH vid) (CAP_PROP_FRAME_HEIGHT vid);
   WriterOpen SummaryWorld (CAP_PROP_FRAME_WIDTH vid) (CAP_PROP_FRAME_HEIGHT vid);
   WriterOpen SummaryRef (shape1 (refStim rec)) (shape0 (refStim rec))].

(** The end of an iteration (lines 208-217). *)
Definition endOfIteration (fs : list nat) (c : nat) (v : VideoCapture)
    (master : option DataFrame) (t : Trace) : Trace * result LoopState :=
  if list_max fs <? c + 1
  then match master with
       | Some log =>
           (t ++ releases ++ [ToCsv log],
            inr (mkLoopState (release v) (c + 1) master))
       | None => (t ++ releases, inl (UnboundLocalError "gazeData_master"))
       end
  else (t, inr (mkLoopState v (c + 1) master)).

(** The capture after a frame was read. *)
Definition afterRead (v : VideoCapture) : VideoCapture :=
  mkVideoCapture (isOpened v) (tl (frames v)) (CAP_PROP_FRAME_COUNT v)
                 (CAP_PROP_FRAME_WIDTH v) (CAP_PROP_FRAME_HEIGHT v).

(** ** The frames in use *)

Lemma framesToUse_all totalFrames : framesToUse totalFrames = seq 0 445.
Proof.
  unfold framesToUse, arange. cbv zeta.
  replace (list_max (seq 0 (445 - 0))) with 444 by (vm_compute; reflexivity).
  replace (445 - 0) with 445 by reflexivity.
  destruct (444 <? totalFrames) eqn:H; [| reflexivity].
  apply Nat.ltb_lt in H. apply forallb_filter_id.
  apply forallb_forall. intros x Hx. apply in_seq in Hx.
  apply Nat.leb_le. lia.
Qed.

Lemma framesToUse_max totalFrames : list_max (framesToUse totalFrames) = 444.
Proof. rewrite framesToUse_all. vm_compute. reflexivity. Qed.

Lemma framesToUse_in totalFrames c :
  c <= 444 -> existsb (Nat.eqb c) (framesToUse totalFrames) = true.
Proof.
  intros H. rewrite framesToUse_all. apply existsb_exists.
  exists c. split; [apply in_seq; lia | apply Nat.eqb_refl].
Qed.

(** ** The cumulative log *)

Lemma rowsOf_fold results :
  forall master,
    rowsOf (fold_left nextMaster results master) =
    rowsOf master ++ flat_map mappedPoints (filter foundGoodMatch results).
Proof.
  induction results as [| fr rest IH]; intros master; cbn [fold_left filter].
  - now rewrite app_nil_r.
  - rewrite IH. unfold nextMaster.
    destruct (foundGoodMatch fr); [| reflexivity].
    cbn [rowsOf flat_map]. now rewrite app_assoc.
Qed.



(** ** One frame *)

Lemma processFrame_at k frame t :
  processFrame cv k (cameraFrame frame) (mapper rec) (gazeOf k)
               (frame_timestamps rec) t =
  (t ++ frameCalls k frame, frameOutcome k frame).
Proof. apply uniform_processFrame. Qed.

Lemma emit_writes (orig gaze sRef sWorld : Image) {A} (a : A) t :
  (emit (WriterWrite Orig orig) ;;
   emit (WriterWrite Gaze gaze) ;;
   emit (WriterWrite SummaryRef sRef) ;;
   emit (WriterWrite SummaryWorld sWorld) ;;
   ret a) t = (t ++ frameWrites orig gaze sRef sWorld, inr a).
Proof.
  unfold bind, emit, ret, frameWrites. now rewrite <- !app_assoc.
Qed.

Lemma summarize_raw k master fr t :
  foundGoodMatch fr = false ->
  summarize cv plt rec k master fr t =
  (t, inr (master, origFrame fr, origFrame fr)).
Proof. intros H. unfold summarize. now rewrite H. Qed.

Lemma summarize_good k master fr t t' master' sRef sWorld :
  foundGoodMatch fr = true ->
  summarize cv plt rec k master fr t = (t', inr (master', sRef, sWorld)) ->
  master' = Some (rowsOf master ++ mappedPoints fr) /\
  snd (createHeatmap cv plt (rowsOf master ++ mappedPoints fr) k
                     (refImgColor (mapper rec)) []) = inr sRef.
Proof.
  intros Hflag. unfold summarize. rewrite Hflag. intros H.
  apply bind_inv_ok in H as (t1 & gd & Hgd & H).
  apply bind_inv_ok in H as (t2 & img & Himg & H).
  apply bind_inv_ok in H as (t3 & r2f & _ & H).
  apply bind_inv_ok in H as (t4 & img' & _ & H).
  injection H as _ <- <- <-.
  assert (Hrows : match master with
                  | Some m => m ++ gd
                  | None => gd
                  end = rowsOf master ++ mappedPoints fr).
  { unfold lift, getitem in Hgd. unfold mappedPoints.
    destruct (gazeData fr); [| discriminate].
    injection Hgd as _ ->. now destruct master. }
  rewrite Hrows in *. split; [reflexivity |].
  rewrite <- (uniform_value _ t1 (uniform_createHeatmap cv plt _ _ _)).
  now rewrite Himg.
Qed.

(** A frame that was handled: its result, the log and the images written. *)
Lemma handleFrame_inv k master frame t t' master' :
  handleFrame cv plt rec k master frame t = (t', inr master') ->
  exists fr sRef sWorld,
    frameOutcome k frame = inr fr /\
    master' = nextMaster master fr /\
    t' = fst (summarize cv plt rec k master fr (t ++ frameCalls k frame))
           ++ frameWrites (origFrame fr) (gazeFrame fr) sRef sWorld /\
    (if foundGoodMatch fr
     then snd (createHeatmap cv plt (rowsOf master ++ mappedPoints fr) k
                             (refImgColor (mapper rec)) []) = inr sRef
     else sRef = origFrame fr).
Proof.
  unfold handleFrame. fold (cameraFrame frame). fold (gazeOf k). intros H.
  apply bind_inv_ok in H as (t1 & fr & Hfr & H).
  rewrite processFrame_at in Hfr. injection Hfr as <- Hfr.
  apply bind_inv_ok in H as (t2 & [[m sRef] sWorld] & Hsum & H).
  rewrite emit_writes in H. injection H as <- <-.
  exists fr, sRef, sWorld. rewrite Hsum. cbn [fst].
  split; [assumption |]. unfold nextMaster.
  destruct (foundGoodMatch fr) eqn:Hflag.
  - apply summarize_good in Hsum as [-> Hmap]; auto.
  - rewrite (summarize_raw k master fr _ Hflag) in Hsum.
    injection Hsum as _ <- <- _. auto.
Qed.

(** A frame without a good match: the original frame goes to the four
    movies and the log is left as it is. *)
Lemma handleFrame_raw k master frame t fr :
  frameOutcome k frame = inr fr ->
  foundGoodMatch fr = false ->
  handleFrame cv plt rec k master frame t =
  (t ++ frameCalls k frame
     ++ frameWrites (origFrame fr) (gazeFrame fr) (origFrame fr) (origFrame fr),
   inr master).
Proof.
  intros Hfr Hflag. unfold handleFrame.
  fold (cameraFrame frame). fold (gazeOf k).
  unfold bind at 1. rewrite processFrame_at, Hfr.
  unfold bind at 1. rewrite (summarize_raw k master fr _ Hflag).
  rewrite emit_writes. now rewrite <- app_assoc.
Qed.

(** ** The frame loop *)

Lemma loopBody_cases fs st t :
  loopBody cv plt rec fs st t =
  match frames (vid st) with
  | [] => endOfIteration fs (frameCounter st) (vid st) (gazeData_master st) t
  | frame :: _ =>
      if existsb (Nat.eqb (frameCounter st)) fs
      then match handleFrame cv plt rec (frameCounter st)
                             (gazeData_master st) frame t with
           | (t1, inr master) =>
               endOfIteration fs (frameCounter st) (afterRead (vid st))
                              master t1
           | (t1, inl e) => (t1, inl e)
           end
      else endOfIteration fs (frameCounter st) (afterRead (vid st))
                          (gazeData_master st) t
  end.
Proof.
  assert (Hend : forall v master t1,
    (let frameCounter := frameCounter st + 1 in
     if list_max fs <? frameCounter
     then
       emit CaptureRelease ;;
       emit (WriterRelease Orig) ;;
       emit (WriterRelease Gaze) ;;
       emit (WriterRelease SummaryRef) ;;
       emit (WriterRelease SummaryWorld) ;;
       match master with
       | Some log =>
           emit (ToCsv log) ;;
           ret (mkLoopState (release v) frameCounter master)
       | None => raise (UnboundLocalError "gazeData_master")
       end
     else ret (mkLoopState v frameCounter master)) t1 =
    endOfIteration fs (frameCounter st) v master t1).
  { intros v master t1. unfold endOfIteration. cbv zeta.
    destruct (list_max fs <? frameCounter st + 1); [| reflexivity].
    unfold bind, emit, ret, raise, releases.
    destruct master; now rewrite <- !app_assoc. }
  unfold loopBody, read, afterRead.
  destruct (frames (vid st)) as [| frame rest].
  - unfold bind at 1. unfold ret at 1. apply Hend.
  - cbn [andb tl].
    destruct (existsb (Nat.eqb (frameCounter st)) fs).
    + unfold bind at 1.
      destruct (handleFrame cv plt rec _ _ frame t) as [t1 [e | master]];
        [reflexivity | apply Hend].
    + unfold bind at 1. unfold ret at 1. apply Hend.
Qed.

Lemma resultsOf_step c m frs :
  c <= m ->
  resultsOf (combine (seq c (S m - c)) frs) =
  match frs with
  | [] => []
  | frame :: rest =>
      match frameOutcome c frame with
      | inr fr => [fr]
      | inl _ => []
      end ++ resultsOf (combine (seq (c + 1) (S m - (c + 1))) rest)
  end.
Proof.
  intros Hc. replace (S m - c) with (S (S m - (c + 1))) by lia.
  rewrite Nat.add_1_r. cbn [seq combine].
  destruct frs as [| frame rest]; reflexivity.
Qed.

Lemma frameLoop_closed fs fuel st t :
  isOpened (vid st) = false ->
  frameLoop cv plt rec fs fuel st t = (t, inr (Some st)).
Proof. intros H. destruct fuel; cbn [frameLoop]; now rewrite H. Qed.

Section Loop.

Variable fs : list nat.
Hypothesis fs_in : forall c, c <= list_max fs -> existsb (Nat.eqb c) fs = true.

(** A loop that ends without an exception closed the capture within its
    fuel and wrote, last, the log of the good matches among the frames it
    went through. *)
Lemma frameLoop_ok fuel :
  forall st t t' r,
    frameLoop cv plt rec fs fuel st t = (t', inr r) ->
    isOpened (vid st) = true ->
    frameCounter st <= list_max fs ->
    S (list_max fs) - frameCounter st <= fuel ->
    exists st' t0 log,
      r = Some st' /\ t' = t0 ++ [ToCsv log] /\
      Some log =
        fold_left nextMaster
          (resultsOf (combine (seq (frameCounter st)
                                   (S (list_max fs) - frameCounter st))
                              (frames (vid st))))
          (gazeData_master st).
Proof.
  induction fuel as [| fuel IH]; intros st t t' r H Hopen Hc Hfuel; [lia |].
  cbn [frameLoop] in H. rewrite Hopen in H. cbn [negb] in H.
  apply bind_inv_ok in H as (t1 & st1 & Hbody & Hloop).
  rewrite loopBody_cases in Hbody. rewrite (resultsOf_step _ _ _ Hc).
  assert (Hend : forall v master tb,
    endOfIteration fs (frameCounter st) v master tb = (t1, inr st1) ->
    isOpened v = true ->
    exists st' t0 log,
      r = Some st' /\ t' = t0 ++ [ToCsv log] /\
      Some log =
        fold_left nextMaster
          (resultsOf (combine (seq (frameCounter st + 1)
                                   (S (list_max fs) - (frameCounter st + 1)))
                              (frames v)))
          master).
  { intros v master tb Hend Hv. unfold endOfIteration in Hend.
    destruct (list_max fs <? frameCounter st + 1) eqn:Hlast.
    - apply Nat.ltb_lt in Hlast.
      destruct master as [log |]; [| discriminate].
      injection Hend as <- <-.
      rewrite frameLoop_closed in Hloop by reflexivity.
      injection Hloop as <- <-.
      eexists _, (tb ++ releases), log. split; [reflexivity |].
      split; [now rewrite <- app_assoc |].
      replace (S (list_max fs) - (frameCounter st + 1)) with 0 by lia.
      reflexivity.
    - apply Nat.ltb_ge in Hlast. injection Hend as <- <-.
      apply IH in Hloop; cbn [vid frameCounter gazeData_master] in *;
        [exact Hloop | assumption | lia | lia]. }
  destruct (frames (vid st)) as [| frame rest] eqn:Hfr.
  - apply Hend in Hbody; [| assumption]. rewrite Hfr in Hbody.
    destruct Hbody as (st' & t0 & log & -> & -> & Hlog).
    rewrite combine_nil in Hlog. exists st', t0, log. auto.
  - rewrite (fs_in _ Hc) in Hbody.
    destruct (handleFrame cv plt rec _ _ frame t) as [tb [e | master]] eqn:Hh;
      [discriminate |].
    apply handleFrame_inv in Hh as (fr & _ & _ & Hout & -> & _).
    apply Hend in Hbody; [| assumption]. rewrite Hout.
    unfold afterRead in Hbody. cbn [frames] in Hbody. rewrite Hfr in Hbody.
    exact Hbody.
Qed.



End Loop.

(** ** The whole run *)

Lemma processRecording_cases t :
  processRecording cv plt rec t =
  match frameLoop cv plt rec (framesToUse (CAP_PROP_FRAME_COUNT (world_mp4 rec)))
                  445 (mkLoopState (world_mp4 rec) 0 None)
                  (t ++ writersOpened) with
  | (t', inr st) => (t', inr (option_map (fun _ => tt) st))
  | (t', inl e) => (t', inl e)
  end.
Proof.
  unfold processRecording. cbv zeta. rewrite framesToUse_max.
  unfold bind at 1 2 3 4, emit. cbn [fst snd].
  rewrite <- !app_assoc. cbn [app]. fold writersOpened.
  unfold bind, ret. reflexivity.
Qed.

Lemma uniform_summarize k master fr :
  uniform (summarize cv plt rec k master fr).
Proof.
  unfold summarize. uniform_tac; auto using uniform_createHeatmap.
Qed.

Lemma uniform_handleFrame k master frame :
  uniform (handleFrame cv plt rec k master frame).
Proof.
  unfold handleFrame.
  uniform_tac; auto using uniform_processFrame, uniform_summarize.
Qed.

Lemma uniform_loopBody fs st : uniform (loopBody cv plt rec fs st).
Proof.
  unfold loopBody. uniform_tac; auto using uniform_handleFrame.
Qed.

Lemma uniform_frameLoop fs fuel : forall st, uniform (frameLoop cv plt rec fs fuel st).
Proof.
  induction fuel as [| fuel IH]; intros st; cbn [frameLoop];
    uniform_tac; auto using uniform_loopBody.
Qed.

Lemma processRecording_ok t t' r :
  processRecording cv plt rec t = (t', inr r) ->
  isOpened (world_mp4 rec) = true ->
  r = Some tt /\
  exists t0 log,
    t' = t0 ++ [ToCsv log] /\
    Some log = fold_left nextMaster frameResults None.
Proof.
  rewrite processRecording_cases. intros H Hopen.
  destruct (frameLoop _ _ _ _ _ _ _) as [t1 [e | st]] eqn:Hloop;
    [discriminate |].
  injection H as <- <-.
  apply frameLoop_ok in Hloop;
    cbn [vid frameCounter gazeData_master]; rewrite ?framesToUse_max;
    [| intros c Hc; now apply framesToUse_in | assumption | lia | lia].
  destruct Hloop as (st' & t0 & log & -> & -> & Hlog).
  split; [reflexivity |]. exists t0, log. split; [reflexivity |].
  cbn [vid frameCounter gazeData_master] in Hlog.
  rewrite framesToUse_max in Hlog. exact Hlog.
Qed.

(** The frame loop ends within the iterations it is given: a run either
    raises or returns, and never runs out of fuel. *)
Theorem processRecording_terminates t :
  (exists t' e, processRecording cv plt rec t = (t', inl e)) \/
  (exists t', processRecording cv plt rec t = (t', inr (Some tt))).
Proof.
  destruct (processRecording cv plt rec t) as [t' [e | r]] eqn:H.
  - left. now exists t', e.
  - right. exists t'. destruct (isOpened (world_mp4 rec)) eqn:Hopen.
    + now apply processRecording_ok in H as [-> _].
    + rewrite processRecording_cases, frameLoop_closed in H by assumption.
      now injection H as <- <-.
Qed.

(** The frames in use are the numbers 0 to 444 whatever the frame count of
    the video: lines 137-138 remove nothing. *)
Theorem framesToUse_ignores_frame_count totalFrames :
  framesToUse totalFrames = arange 0 445 /\
  (forall c, In c (framesToUse totalFrames) <-> c < 445).
Proof.
  split; [apply framesToUse_all |].
  intros c. rewrite framesToUse_all, in_seq. lia.
Qed.

(** ** The claims about the frame loop *)

(** C4. The cumulative log is only ever appended to: a frame result with a
    good match adds its mapped gaze points at the end, one without adds
    nothing. A run that ends without an exception writes the log last, and
    the log is the mapped gaze points of the frames with
    [foundGoodMatch = true], in frame order: its length is the sum of their
    numbers of mapped gaze points. *)
Theorem cumulative_log_of_good_frames t t' r :
  processRecording cv plt rec t = (t', inr r) ->
  isOpened (world_mp4 rec) = true ->
  let good := filter foundGoodMatch frameResults in
  (exists t0 log,
     t' = t0 ++ [ToCsv log] /\
     log = flat_map mappedPoints good /\
     length log = list_sum (map (fun fr => length (mappedPoints fr)) good)) /\
  (forall k master fr t1 t2 master' sRef sWorld,
     summarize cv plt rec k master fr t1 = (t2, inr (master', sRef, sWorld)) ->
     rowsOf master' =
     rowsOf master ++ (if foundGoodMatch fr then mappedPoints fr else [])).
Proof.
  intros H Hopen good. split.
  - apply processRecording_ok in H as (_ & t0 & log & -> & Hlog);
      [| assumption].
    apply (f_equal rowsOf) in Hlog. rewrite rowsOf_fold in Hlog.
    cbn [rowsOf app] in Hlog. fold good in Hlog.
    exists t0, log. split; [reflexivity |]. split; [assumption |].
    rewrite Hlog. apply length_flat_map.
  - intros k master fr t1 t2 master' sRef sWorld Hsum.
    destruct (foundGoodMatch fr) eqn:Hflag.
    + apply summarize_good in Hsum as [-> _]; [reflexivity | assumption].
    + rewrite (summarize_raw k master fr t1 Hflag) in Hsum.
      injection Hsum as _ <- _ _. now rewrite app_nil_r.
Qed.

(** C6. For a frame with more than ten correspondences on which the solver
    succeeds and which has no gaze sample, [processFrame] returns a result
    (no exception) whose mapped gaze data is the empty table, whose flag
    [foundGoodMatch] is true and whose overlay is the original frame; and
    the frame loop treats this result as a good match: the log is bound,
    with the rows it had, and the heat map is made from it. *)
Theorem processFrame_no_gaze_samples
    k frame ts t frame_ts rp fp cp co r2f f2r :
  index ts k = inr frame_ts ->
  matchPts cv frame (mapper rec) = Some (rp, fp) ->
  10 < length rp ->
  solvePose (mapper rec) (Some rp) fp = inr (cp, co, r2f, f2r) ->
  exists fr,
    processFrame cv k frame (mapper rec) [] ts t =
      (t ++ [Call FindFeatures; Call FindMatches] ++ solverCalls, inr fr) /\
    gazeData fr = Some [] /\
    foundGoodMatch fr = true /\
    gazeFrame fr = frame /\
    origFrame fr = frame /\
    forall k' master t1,
      summarize cv plt rec k' master fr t1 =
      (gazeSummary_ref <-
         createHeatmap cv plt (rowsOf master) k' (refImgColor (mapper rec)) ;;
       mappedSummaryFrame <-
         call ProjectImage2D
              (projectImage2D (mapper rec) frame r2f gazeSummary_ref) ;;
       ret (Some (rowsOf master), gazeSummary_ref, mappedSummaryFrame)) t1.
Proof.
  intros Hts Hm Hn Hpose. apply Nat.ltb_lt in Hn.
  rewrite (processFrame_matched _ _ _ _ [] _ t _ _ _ Hts Hm), Hn.
  rewrite goodMatch_cases, Hpose, <- app_assoc.
  eexists. split; [reflexivity |]. repeat split.
  intros k' master t1. unfold summarize. cbn.
  destruct master; cbn [rowsOf]; now rewrite ?app_nil_r.
Qed.


(** C10. The writer of the reference-space summary movie is opened with
    the pixel dimensions of the reference image, the other three with those
    of the video. For a frame without a good match the loop writes to it the
    original camera frame, the very image it writes to the movie of the
    original frames, and leaves the log as it is. Only for a frame with a
    good match does it write the image [createHeatmap] made over the
    reference image of the mapper. *)
Theorem summaryRef_gets_camera_frame k master frame t :
  let out := handleFrame cv plt rec k master frame t in
  (exists later,
     fst (processRecording cv plt rec t) = t ++ writersOpened ++ later) /\
  In (WriterOpen SummaryRef (shape1 (refStim rec)) (shape0 (refStim rec)))
     writersOpened /\
  (forall fr,
     frameOutcome k frame = inr fr -> foundGoodMatch fr = false ->
     origFrame fr = cameraFrame frame /\
     out = (t ++ frameCalls k frame
              ++ [WriterWrite Orig (cameraFrame frame);
                  WriterWrite Gaze (cameraFrame frame);
                  WriterWrite SummaryRef (cameraFrame frame);
                  WriterWrite SummaryWorld (cameraFrame frame)],
            inr master)) /\
  (forall fr t' master',
     frameOutcome k frame = inr fr -> foundGoodMatch fr = true ->
     out = (t', inr master') ->
     exists t0 sRef sWorld,
       t' = t0 ++ [WriterWrite Orig (origFrame fr);
                   WriterWrite Gaze (gazeFrame fr);
                   WriterWrite SummaryRef sRef;
                   WriterWrite SummaryWorld sWorld] /\
       snd (createHeatmap cv plt (rowsOf master ++ mappedPoints fr) k
                          (refImgColor (mapper rec)) []) = inr sRef).
Proof.
  intros out. subst out. split; [| split; [| split]].
  - rewrite processRecording_cases.
    pose proof (uniform_frameLoop
                  (framesToUse (CAP_PROP_FRAME_COUNT (world_mp4 rec))) 445
                  (mkLoopState (world_mp4 rec) 0 None) (t ++ writersOpened))
      as U.
    rewrite U. eexists.
    destruct (snd (frameLoop _ _ _ _ _ _ [])); cbn [fst];
      now rewrite <- app_assoc.
  - cbn. auto.
  - intros fr Hfr Hflag.
    assert (Hraw : origFrame fr = cameraFrame frame /\
                   gazeFrame fr = cameraFrame frame).
    { unfold frameOutcome in Hfr.
      apply processFrame_result in Hfr
        as (frame_ts & _ & [[-> _] | (rp & fp & _ & _ & Hgood)]).
      - split; reflexivity.
      - rewrite Hgood in Hflag. discriminate. }
    destruct Hraw as [Ho Hg]. split; [assumption |].
    rewrite (handleFrame_raw _ master _ t _ Hfr Hflag), Ho, Hg. reflexivity.
  - intros fr t' master' Hfr Hflag H.
    apply handleFrame_inv in H as (fr' & sRef & sWorld & Hfr' & _ & -> & Hs).
    rewrite Hfr in Hfr'. injection Hfr' as <-. rewrite Hflag in Hs.
    eexists _, sRef, sWorld. split; [reflexivity | assumption].
Qed.

(** ** The shape of the trace of a run *)

(** The events of the collaborators called inside a frame. *)
Definition internal (e : Event) : Prop :=
  match e with
  | Call _ | Kdeplot _ _ => True
  | _ => False
  end.

(** The events of the handling of a frame: those and the writes to the
    movies. *)
Definition frameEvent (e : Event) : Prop :=
  match e with
  | Call _ | Kdeplot _ _ | WriterWrite _ _ => True
  | _ => False
  end.

(** All that [c] adds to the trace satisfies [P], whatever its outcome. *)
Definition emits (P : Event -> Prop) {A} (c : Py A) : Prop :=
  forall t, exists evs, fst (c t) = t ++ evs /\ Forall P evs.

Definition stream_eqb (a b : Stream) : bool :=
  match a, b with
  | Orig, Orig | Gaze, Gaze | SummaryWorld, SummaryWorld
  | SummaryRef, SummaryRef => true
  | _, _ => false
  end.

(** The images written to the movie [s], in order. *)
Definition writesTo (s : Stream) (t : Trace) : list Image :=
  flat_map (fun e => match e with
                     | WriterWrite s' img => if stream_eqb s s' then [img] else []
                     | _ => []
                     end) t.

Lemma emits_nothing P {A} (c : Py A) : silent c -> emits P c.
Proof.
  intros H t. exists []. rewrite (H t). cbn. now rewrite app_nil_r.
Qed.

Lemma emits_call P {A} op (r : result A) : P (Call op) -> emits P (call op r).
Proof. intros H t. exists [Call op]. split; [reflexivity | now constructor]. Qed.

Lemma emits_emit P e : P e -> emits P (emit e).
Proof. intros H t. exists [e]. split; [reflexivity | now constructor]. Qed.

Lemma emits_bind P {A B} (c : Py A) (f : A -> Py B) :
  emits P c -> (forall a, emits P (f a)) -> emits P (bind c f).
Proof.
  intros Hc Hf t. unfold bind. destruct (Hc t) as (e1 & H1 & P1).
  destruct (c t) as [t1 [e | a]]; cbn [fst] in H1; subst t1.
  - now exists e1.
  - destruct (Hf a (t ++ e1)) as (e2 & H2 & P2). exists (e1 ++ e2).
    rewrite H2, app_assoc. split; [reflexivity | now apply Forall_app].
Qed.

Lemma emits_try P {A} (c h : Py A) :
  emits P c -> emits P h -> emits P (try_except c h).
Proof.
  intros Hc Hh t. unfold try_except. destruct (Hc t) as (e1 & H1 & P1).
  destruct (c t) as [t1 [e | a]]; cbn [fst] in H1; subst t1.
  - destruct (Hh (t ++ e1)) as (e2 & H2 & P2). exists (e1 ++ e2).
    rewrite H2, app_assoc. split; [reflexivity | now apply Forall_app].
  - now exists e1.
Qed.


Ltac emits_step :=
  match goal with
  | |- emits _ (bind _ _) => apply emits_bind; [| intros ?]
  | |- emits _ (try_except _ _) => apply emits_try
  | |- emits _ (if ?b then _ else _) => destruct b
  | |- emits _ (match ?x with _ => _ end) => destruct x
  | |- emits _ (call _ _) => apply emits_call; exact I
  | |- emits _ (emit _) => apply emits_emit; exact I
  | |- emits _ (ret _) => apply emits_nothing, silent_ret
  | |- emits _ (raise _) => apply emits_nothing, silent_raise
  | |- emits _ (lift _) => apply emits_nothing, silent_lift
  end.

Lemma emits_mapGaze m k gray H rows :
  forall acc, emits internal (mapGaze m k gray H rows acc).
Proof.
  induction rows as [| g rest IH]; intros acc; cbn [mapGaze].
  - emits_step.
  - destruct (denormalize gray g). repeat emits_step. apply IH.
Qed.

Lemma emits_processFrame k frame m gaze ts :
  emits internal (processFrame cv k frame m gaze ts).
Proof.
  unfold processFrame, sufficientMatches, goodMatch. cbv zeta.
  repeat emits_step;
    first [apply emits_mapGaze | apply emits_nothing, silent_drawGaze].
Qed.

Lemma emits_createHeatmap log k refImg :
  emits internal (createHeatmap cv plt log k refImg).
Proof.
  unfold createHeatmap. cbv zeta.
  repeat emits_step;
    apply emits_nothing; first [apply silent_drawTrace | apply silent_drawLast].
Qed.

Lemma emits_summarize k master fr :
  emits internal (summarize cv plt rec k master fr).
Proof.
  unfold summarize. repeat emits_step; auto using emits_createHeatmap.
Qed.


Lemma writesTo_app s t u : writesTo s (t ++ u) = writesTo s t ++ writesTo s u.
Proof. apply flat_map_app. Qed.

Lemma writesTo_internal s evs : Forall internal evs -> writesTo s evs = [].
Proof.
  induction 1 as [| e evs He _ IH]; [reflexivity |].
  cbn [writesTo flat_map]. fold (writesTo s evs). rewrite IH.
  now destruct e.
Qed.

Lemma frameCalls_internal k frame : Forall internal (frameCalls k frame).
Proof.
  unfold frameCalls.
  destruct (emits_processFrame k (cameraFrame frame) (mapper rec) (gazeOf k)
              (frame_timestamps rec) []) as (evs & -> & H).
  exact H.
Qed.

(** The events of a frame that was handled without an exception: calls,
    then one image for each movie. *)
Lemma handleFrame_events k master frame t t' master' :
  handleFrame cv plt rec k master frame t = (t', inr master') ->
  exists evs,
    t' = t ++ evs /\ Forall frameEvent evs /\
    writesTo Orig evs = [cameraFrame frame] /\
    forall s, length (writesTo s evs) = 1.
Proof.
  intros H. apply handleFrame_inv in H
    as (fr & sRef & sWorld & Hfr & _ & -> & _).
  destruct (emits_summarize k master fr (t ++ frameCalls k frame))
    as (sev & -> & Hsev).
  pose proof (frameCalls_internal k frame) as Hcalls.
  assert (Ho : origFrame fr = cameraFrame frame).
  { unfold frameOutcome in Hfr. now apply processFrame_origFrame in Hfr. }
  exists (frameCalls k frame ++ sev
            ++ frameWrites (origFrame fr) (gazeFrame fr) sRef sWorld).
  split; [now rewrite <- !app_assoc |].
  assert (Hint : forall e, internal e -> frameEvent e) by (now intros []).
  split.
  - apply Forall_app. split; [eapply Forall_impl; eassumption |].
    apply Forall_app. split; [eapply Forall_impl; eassumption |].
    unfold frameWrites. repeat constructor.
  - split; [| intros s];
      rewrite !writesTo_app, (writesTo_internal _ _ Hcalls),
        (writesTo_internal _ _ Hsev).
    + now rewrite Ho.
    + now destruct s.
Qed.

Section LoopTrace.

Variable fs : list nat.
Hypothesis fs_in : forall c, c <= list_max fs -> existsb (Nat.eqb c) fs = true.

Lemma endOfIteration_shape c v master tb t1 r1 :
  endOfIteration fs c v master tb = (t1, r1) ->
  match r1 with
  | inl e =>
      t1 = tb ++ releases /\ e = UnboundLocalError "gazeData_master"
  | inr st1 =>
      frameCounter st1 = c + 1 /\ frames (vid st1) = frames v /\
      if list_max fs <? c + 1
      then isOpened (vid st1) = false /\
           exists log, t1 = tb ++ releases ++ [ToCsv log]
      else isOpened (vid st1) = isOpened v /\ t1 = tb
  end.
Proof.
  unfold endOfIteration. destruct (list_max fs <? c + 1).
  - destruct master as [log |]; intros H; injection H as <- <-.
    + repeat split. now exists log.
    + now split.
  - intros H. injection H as <- <-. repeat split.
Qed.

(** A loop that ends without an exception: the events of the frames, then
    the releases, then the log. *)
Lemma frameLoop_writes fuel :
  forall st t t' r,
    frameLoop cv plt rec fs fuel st t = (t', inr r) ->
    isOpened (vid st) = true ->
    frameCounter st <= list_max fs ->
    S (list_max fs) - frameCounter st <= fuel ->
    exists body log,
      t' = t ++ body ++ releases ++ [ToCsv log] /\
      Forall frameEvent body /\
      writesTo Orig body =
        map cameraFrame
            (firstn (S (list_max fs) - frameCounter st) (frames (vid st))) /\
      forall s,
        length (writesTo s body) =
        length (firstn (S (list_max fs) - frameCounter st) (frames (vid st))).
Proof.
  induction fuel as [| fuel IH]; intros st t t' r H Hopen Hc Hfuel; [lia |].
  cbn [frameLoop] in H. rewrite Hopen in H. cbn [negb] in H.
  apply bind_inv_ok in H as (t1 & st1 & Hbody & Hloop).
  rewrite loopBody_cases in Hbody.
  assert (Hend : forall v master tb,
    endOfIteration fs (frameCounter st) v master tb = (t1, inr st1) ->
    isOpened v = true ->
    exists body log,
      t' = tb ++ body ++ releases ++ [ToCsv log] /\
      Forall frameEvent body /\
      writesTo Orig body =
        map cameraFrame
            (firstn (S (list_max fs) - (frameCounter st + 1)) (frames v)) /\
      forall s,
        length (writesTo s body) =
        length (firstn (S (list_max fs) - (frameCounter st + 1)) (frames v))).
  { intros v master tb Hend Hv. apply endOfIteration_shape in Hend.
    destruct Hend as (Hc1 & Hf1 & Hlast).
    destruct (list_max fs <? frameCounter st + 1) eqn:Hb.
    - apply Nat.ltb_lt in Hb. destruct Hlast as (Hclosed & log & ->).
      rewrite frameLoop_closed in Hloop by assumption.
      injection Hloop as <- _. exists [], log.
      replace (S (list_max fs) - (frameCounter st + 1)) with 0 by lia.
      repeat split; constructor.
    - apply Nat.ltb_ge in Hb. destruct Hlast as (Ho1 & ->).
      apply IH in Hloop; rewrite ?Hc1, ?Hf1, ?Ho1 in *;
        [exact Hloop | assumption | lia | lia]. }
  destruct (frames (vid st)) as [| frame rest] eqn:Hfr.
  - apply Hend in Hbody; [| assumption]. rewrite Hfr in Hbody.
    rewrite firstn_nil in *. exact Hbody.
  - rewrite (fs_in _ Hc) in Hbody.
    destruct (handleFrame cv plt rec _ _ frame t) as [tb [e | master]] eqn:Hh;
      [discriminate |].
    apply handleFrame_events in Hh as (evs & -> & Hevs & Horig & Hlen).
    apply Hend in Hbody; [| assumption].
    destruct Hbody as (body & log & -> & Hbody & Ho & Hl).
    unfold afterRead in Ho, Hl. cbn [frames] in Ho, Hl. rewrite Hfr in Ho, Hl.
    cbn [tl] in Ho, Hl.
    exists (evs ++ body), log.
    replace (S (list_max fs) - frameCounter st)
      with (S (S (list_max fs) - (frameCounter st + 1))) by lia.
    cbn [firstn map length].
    split; [now rewrite <- !app_assoc |].
    split; [now apply Forall_app |].
    split; [now rewrite writesTo_app, Horig, Ho |].
    intros s. now rewrite writesTo_app, length_app, Hlen, Hl.
Qed.


End LoopTrace.

Lemma framesToUse_member c :
  c <= list_max (framesToUse (CAP_PROP_FRAME_COUNT (world_mp4 rec))) ->
  existsb (Nat.eqb c) (framesToUse (CAP_PROP_FRAME_COUNT (world_mp4 rec)))
    = true.
Proof. rewrite framesToUse_max. apply framesToUse_in. Qed.

(** In a run that ends without an exception, each of the four movies gets
    one image for each of the first 445 frames of the video, the movie of
    the original frames the undistorted frames in their order; after the
    last frame the capture and the writers are released, once, and the log
    is written last. Nothing is written to a movie after its release. *)
Theorem processRecording_movies t t' r :
  processRecording cv plt rec t = (t', inr r) ->
  isOpened (world_mp4 rec) = true ->
  let processed := firstn 445 (frames (world_mp4 rec)) in
  exists body log,
    t' = t ++ writersOpened ++ body ++ releases ++ [ToCsv log] /\
    Forall frameEvent body /\
    writesTo Orig body = map cameraFrame processed /\
    forall s, length (writesTo s body)
              = Nat.min 445 (length (frames (world_mp4 rec))).
Proof.
  rewrite processRecording_cases. intros H Hopen processed.
  destruct (frameLoop _ _ _ _ _ _ _) as [t1 [e | st]] eqn:Hloop;
    [discriminate |].
  injection H as <- _.
  apply (frameLoop_writes _ framesToUse_member) in Hloop;
    cbn [vid frameCounter]; rewrite ?framesToUse_max;
    [| assumption | lia | lia].
  cbn [vid frameCounter] in Hloop. rewrite framesToUse_max in Hloop.
  destruct Hloop as (body & log & -> & Hbody & Ho & Hl).
  exists body, log. split; [now rewrite <- app_assoc |].
  split; [assumption |]. split; [exact Ho |].
  intros s. rewrite Hl. apply length_firstn.
Qed.


(** ** The order of the log *)

Lemma frameOutcome_rows k frame fr :
  frameOutcome k frame = inr fr ->
  Forall (fun r => worldFrame r = k) (mappedPoints fr).
Proof.
  intros H. unfold mappedPoints.
  destruct (gazeData fr) as [df |] eqn:Hdf; [| constructor].
  unfold frameOutcome in H. eapply processFrame_worldFrame; eassumption.
Qed.

Lemma sorted_after c (l1 l2 : list nat) :
  Forall (fun x => x = c) l1 ->
  StronglySorted le l2 ->
  Forall (fun y => c <= y) l2 ->
  StronglySorted le (l1 ++ l2).
Proof.
  intros H1 H2 Hle. induction H1 as [| x l1 -> Hrest IH]; [assumption |].
  cbn [app]. constructor; [assumption |].
  apply Forall_app. split; [| assumption].
  eapply Forall_impl; [| exact Hrest]. intros y ->. apply le_n.
Qed.

(** The mapped points of the good matches among numbered frames come in
    the order of the frame numbers. *)
Lemma rows_in_frame_order frs :
  forall c n,
    let rows := flat_map mappedPoints
                  (filter foundGoodMatch (resultsOf (combine (seq c n) frs))) in
    StronglySorted le (map worldFrame rows) /\
    Forall (fun r => c <= worldFrame r /\
                     worldFrame r < c + Nat.min n (length frs)) rows.
Proof.
  induction frs as [| frame rest IH]; intros c n rows; subst rows.
  { rewrite combine_nil. split; constructor. }
  destruct n as [| n]; [split; constructor |].
  cbn [seq combine resultsOf flat_map fst snd]. fold (resultsOf (combine (seq (S c) n) rest)).
  rewrite filter_app, flat_map_app, map_app.
  destruct (IH (S c) n) as [Hsorted Hbound].
  set (tailRows := flat_map mappedPoints
                     (filter foundGoodMatch
                        (resultsOf (combine (seq (S c) n) rest)))) in *.
  assert (Hhead : Forall (fun r => worldFrame r = c)
                    (flat_map mappedPoints
                       (filter foundGoodMatch
                          match frameOutcome c frame with
                          | inl _ => []
                          | inr fr => [fr]
                          end))).
  { destruct (frameOutcome c frame) as [e | fr] eqn:Hfr; [constructor |].
    cbn [filter]. destruct (foundGoodMatch fr); [| constructor].
    cbn [flat_map]. rewrite app_nil_r. now apply frameOutcome_rows with frame. }
  split.
  - apply sorted_after with c.
    + clear - Hhead. induction Hhead; constructor; auto.
    + assumption.
    + clear - Hbound. induction Hbound as [| r l [Hr _] _ IH'];
        constructor; [lia | exact IH'].
  - apply Forall_app. split.
    + eapply Forall_impl; [| exact Hhead]. cbn [length]. intros r ->. lia.
    + eapply Forall_impl; [| exact Hbound]. cbn [length]. intros r [? ?]. lia.
Qed.

(** The log a run writes is in frame order: the frame numbers of its rows
    never decrease, and each is the number of a frame of the video among
    the first 445. *)
Theorem processRecording_log_in_frame_order t t' r :
  processRecording cv plt rec t = (t', inr r) ->
  isOpened (world_mp4 rec) = true ->
  exists t0 log,
    t' = t0 ++ [ToCsv log] /\
    StronglySorted le (map worldFrame log) /\
    Forall (fun row => worldFrame row
                       < Nat.min 445 (length (frames (world_mp4 rec)))) log.
Proof.
  intros H Hopen.
  apply processRecording_ok in H as (_ & t0 & log & -> & Hlog);
    [| assumption].
  apply (f_equal rowsOf) in Hlog. rewrite rowsOf_fold in Hlog.
  cbn [rowsOf app] in Hlog. exists t0, log. split; [reflexivity |].
  rewrite Hlog. unfold frameResults, processedFrames.
  destruct (rows_in_frame_order (frames (world_mp4 rec)) 0 445)
    as [Hsorted Hbound].
  split; [exact Hsorted |].
  eapply Forall_impl; [| exact Hbound]. intros row [_ Hlt]. exact Hlt.
Qed.

End RecordingFacts.


(** * The output prefix (line 141) *)

Module Prefix.

Local Open Scope string_scope.

(** [s.split(sep)] for a separator of one character. *)
Fixpoint split (sep : Ascii.ascii) (s : string) : list string :=
  match s with
  | EmptyString => [EmptyString]
  | String c rest =>
      if Ascii.eqb c sep then EmptyString :: split sep rest
      else match split sep rest with
           | piece :: pieces => String c piece :: pieces
           | [] => [String c EmptyString]
           end
  end.

(** [a[-1:]] *)
Definition lastSlice {A} (a : list A) : list A := skipn (length a - 1) a.

(** [refFile.split('/')[-1:][0].split('.')[0]] *)
Definition output_prefix (refFile : string) : result string :=
  match index (lastSlice (split "/"%char refFile)) 0 with
  | inl e => inl e
  | inr base => index (split "."%char base) 0
  end.

(** The character [c] occurs in [s]. *)
Fixpoint occurs (c : Ascii.ascii) (s : string) : Prop :=
  match s with
  | EmptyString => False
  | String c' rest => c' = c \/ occurs c rest
  end.

Lemma split_nonempty sep s : split sep s <> [].
Proof.
  destruct s as [| c rest]; cbn [split]; [discriminate |].
  destruct (Ascii.eqb c sep); [discriminate |].
  destruct (split sep rest); discriminate.
Qed.

(** The pieces hold no separator, and no character that is not in [s]. *)
Lemma split_pieces sep s :
  Forall (fun piece => ~ occurs sep piece /\
                       forall c, occurs c piece -> occurs c s)
         (split sep s).
Proof.
  induction s as [| c rest IH]; cbn [split].
  - constructor; [| constructor]. split; [intros [] | intros c []].
  - destruct (Ascii.eqb_spec c sep) as [-> | Hc].
    + constructor.
      * split; [intros [] | intros c []].
      * eapply Forall_impl; [| exact IH]. intros piece [Hsep Hsub].
        split; [assumption |]. intros c Hin. right. auto.
    + destruct (split sep rest) as [| piece pieces] eqn:Hsplit.
      * now apply split_nonempty in Hsplit.
      * inversion IH as [| ? ? [Hsep Hsub] Hrest]; subst. constructor.
        -- split.
           ++ intros [Heq | Hin]; [now apply Hc | now apply Hsep].
           ++ intros c' [Heq | Hin]; [now left | right; auto].
        -- eapply Forall_impl; [| exact Hrest]. intros p [Hs Hsb].
           split; [assumption |]. intros c' Hin. right. auto.
Qed.

Lemma split_whole sep s : ~ occurs sep s -> split sep s = [s].
Proof.
  induction s as [| c rest IH]; intros H; cbn [split]; [reflexivity |].
  destruct (Ascii.eqb_spec c sep) as [-> | Hc].
  - exfalso. apply H. now left.
  - rewrite IH; [reflexivity |]. intros Hin. apply H. now right.
Qed.

Lemma split_append sep a b :
  split sep (a ++ String sep b) = (split sep a ++ split sep b)%list.
Proof.
  induction a as [| c a IH]; cbn [append split app].
  - now rewrite Ascii.eqb_refl.
  - destruct (Ascii.eqb c sep).
    + now rewrite IH.
    + rewrite IH. pose proof (split_nonempty sep a) as Hne.
      destruct (split sep a); [contradiction | reflexivity].
Qed.

Lemma lastSlice_last {A} (l : list A) x : lastSlice (l ++ [x]) = [x].
Proof.
  unfold lastSlice. rewrite length_app. cbn [length].
  replace (length l + 1 - 1) with (length l) by lia.
  rewrite skipn_app, skipn_all, Nat.sub_diag. reflexivity.
Qed.

Lemma lastSlice_in {A} (l : list A) :
  l <> [] -> exists x, lastSlice l = [x] /\ In x l.
Proof.
  intros H. destruct (exists_last H) as (l' & x & ->).
  exists x. split; [apply lastSlice_last |]. apply in_or_app. right. now left.
Qed.

Lemma occurs_append c a b : occurs c (a ++ b) <-> occurs c a \/ occurs c b.
Proof.
  induction a as [| c' a IH]; cbn [append occurs]; [tauto |].
  rewrite IH. tauto.
Qed.

(** The prefix is always there, whatever the path: neither index is out of
    range, also for the empty path; and it holds neither a slash nor a
    dot. *)
Theorem output_prefix_clean refFile :
  exists prefix,
    output_prefix refFile = inr prefix /\
    ~ occurs "/"%char prefix /\ ~ occurs "."%char prefix.
Proof.
  unfold output_prefix.
  destruct (lastSlice_in (split "/"%char refFile) (split_nonempty _ _))
    as (base & -> & Hbase).
  cbn [index nth_error].
  pose proof (proj1 (Forall_forall _ _) (split_pieces "/"%char refFile) base Hbase)
    as [Hslash _].
  pose proof (split_pieces "."%char base) as Hpieces.
  destruct (split "."%char base) as [| prefix pieces] eqn:Hsplit.
  { now apply split_nonempty in Hsplit. }
  inversion Hpieces as [| ? ? [Hdot Hsub] _]; subst.
  exists prefix. repeat split; [| assumption].
  intros Hin. apply Hslash. now apply Hsub.
Qed.

(** For a path [dir/name.ext], with a name without slash or dot and an
    extension without slash, the prefix is the name; the directory may hold
    slashes and dots. *)
Theorem output_prefix_of_path dir name ext :
  ~ occurs "/"%char name -> ~ occurs "."%char name -> ~ occurs "/"%char ext ->
  output_prefix (dir ++ String "/"%char (name ++ String "."%char ext)) = inr name.
Proof.
  intros Hslash Hdot Hext. unfold output_prefix.
  rewrite split_append.
  rewrite (split_whole "/"%char (name ++ String "."%char ext)).
  - rewrite lastSlice_last. cbn [index nth_error].
    rewrite split_append, (split_whole "."%char name Hdot). reflexivity.
  - intros Hin. apply occurs_append in Hin as [Hin | Hin];
      [now apply Hslash |].
    destruct Hin as [Heq | Hin]; [discriminate | now apply Hext].
Qed.

End Prefix.

(** * The claims on the sample environment *)

(** A frame with eleven matches, all on one line, whose pose cannot be
    solved: the exception of the solver is the outcome of [processFrame]. *)
Lemma processFrame_solver_failure_witness :
  snd (processFrame Sample.cv 0 (Sample.frameOf 12)
         (Sample.mapper Sample.refImage false) Sample.gazeSamples
         Sample.timestamps [])
  = inl (ExternalError "solvePnP").
Proof.
  refine (proj1 (processFrame_solver_failure_propagates
                   Sample.cv 0 (Sample.frameOf 12)
                   (Sample.mapper Sample.refImage false) Sample.gazeSamples
                   Sample.timestamps [] _ _ _ _ _ _) _ _).
  - reflexivity.
  - reflexivity.
  - vm_compute. lia.
  - reflexivity.
Defined.

(** A solver failure is not turned into a raw-frame result: on a frame
    with eleven correspondences on which the solver raises, [processFrame]
    returns no result at all; the exception of the solver reaches its
    caller. *)
Lemma processFrame_solver_failure_escapes :
  numMatches Sample.cv (Sample.frameOf 12) (Sample.mapper Sample.refImage false)
    = Some 11 /\
  processFrame Sample.cv 0 (Sample.frameOf 12)
               (Sample.mapper Sample.refImage false) [] Sample.timestamps []
    = ([Call FindFeatures; Call FindMatches; Call PnP],
       inl (ExternalError "solvePnP")).
Proof. repeat split. Qed.

(** Eleven matches give a good match, ten give the raw frame. *)
Lemma processFrame_good_match_threshold_witness :
  (exists fr,
     snd (processFrame Sample.cv 0 (Sample.frameOf 12)
            (Sample.mapper Sample.refImage true) [] Sample.timestamps [])
       = inr fr /\
     foundGoodMatch fr = true) /\
  processFrame Sample.cv 1 (Sample.frameOf 11)
               (Sample.mapper Sample.refImage true) Sample.gazeSamples
               Sample.timestamps []
    = ([Call FindFeatures; Call FindMatches],
       inr (rawFrameOnly 1 (Sample.frameOf 11) 1%float)).
Proof.
  split.
  - refine (proj2 (proj1 (proj2 (processFrame_good_match_threshold
                                   Sample.cv 0 (Sample.frameOf 12)
                                   (Sample.mapper Sample.refImage true) []
                                   Sample.timestamps [])) _)
                  _ _ _ _ _ _ _ _); reflexivity.
  - refine (proj1 (proj2 (proj2 (processFrame_good_match_threshold
                                   Sample.cv 1 (Sample.frameOf 11)
                                   (Sample.mapper Sample.refImage true)
                                   Sample.gazeSamples Sample.timestamps []))
                         _ _ _)); reflexivity.
Defined.

(** A frame with one key point. *)
Lemma processFrame_few_keypoints_witness :
  snd (processFrame Sample.cv 0 (Sample.frameOf 1)
         (Sample.mapper Sample.refImage true) Sample.gazeSamples
         Sample.timestamps [])
  = inr (rawFrameOnly 0 (Sample.frameOf 1) 0%float).
Proof.
  refine (proj2 (proj2 (processFrame_few_keypoints
                          Sample.cv 0 (Sample.frameOf 1)
                          (Sample.mapper Sample.refImage true)
                          Sample.gazeSamples Sample.timestamps [] _ _ _ _))
                _ _).
  - reflexivity.
  - vm_compute. lia.
  - reflexivity.
Defined.

(** Two gaze samples on a frame 4 pixels wide and 2 pixels high. *)
Lemma processFrame_denormalizes_witness :
  Forall2
    (fun sample point =>
       frame_gazeX point = (norm_pos_x sample * 4)%float /\
       frame_gazeY point = (2 - norm_pos_y sample * 2)%float)
    [Sample.gazeAt 0 0 0.5 0.5; Sample.gazeAt 1 0 0.25 0.75]%float
    [Sample.mappedAt 0 0 2 1; Sample.mappedAt 1 0 1 0.5]%float.
Proof.
  refine (proj1 (processFrame_denormalizes
                   Sample.cv 0 (Sample.frameOf 12)
                   (Sample.mapper Sample.refImage true)
                   [Sample.gazeAt 0 0 0.5 0.5; Sample.gazeAt 1 0 0.25 0.75]%float
                   Sample.timestamps [] _ _ _ _)).
  - reflexivity.
  - reflexivity.
Defined.



(** A frame with eleven matches and no gaze sample. *)
Lemma processFrame_no_gaze_samples_witness :
  exists fr,
    snd (processFrame Sample.cv 0 (Sample.frameOf 12)
           (mapper Sample.recording) [] Sample.timestamps []) = inr fr /\
    gazeData fr = Some [] /\
    foundGoodMatch fr = true /\
    snd (summarize Sample.cv Sample.plt Sample.recording 0 None fr [])
      = inr (Some [], Sample.refImage, Sample.frameOf 12).
Proof.
  destruct (processFrame_no_gaze_samples
              Sample.cv Sample.plt Sample.recording 0 (Sample.frameOf 12)
              Sample.timestamps [] 0%float
              (map (fun i => (float_of_nat i, float_of_nat i)) (seq 0 11))
              (Some (map (fun i => (float_of_nat i, float_of_nat i)) (seq 0 11)))
              [0; 0; 1]%float [0; 0; 0]%float Sample.identity3 Sample.identity3
              eq_refl eq_refl
              (ltac:(vm_compute; lia)) eq_refl)
    as (fr & Hrun & Hdata & Hflag & _ & _ & Hsum).
  exists fr. rewrite Hrun, Hsum. repeat split; try assumption.
Defined.

(** A run over three frames, the first with two mapped gaze points, the
    second without a good match, the third with one. *)
Lemma cumulative_log_witness :
  exists t0 log,
    fst (processRecording Sample.cv Sample.plt Sample.recording [])
      = t0 ++ [ToCsv log] /\
    length log = 3.
Proof.
  destruct (cumulative_log_of_good_frames
              Sample.cv Sample.plt Sample.recording []
              (fst (processRecording Sample.cv Sample.plt Sample.recording []))
              (Some tt)
              (ltac:(vm_compute; reflexivity)) eq_refl)
    as [(t0 & log & Ht & _ & Hlen) _].
  exists t0, log. split; [exact Ht |]. rewrite Hlen. vm_compute. reflexivity.
Defined.



(** The second frame of the sample run has no good match. *)
Lemma summaryRef_gets_camera_frame_witness :
  In (WriterOpen SummaryRef 4 2)
     (fst (processRecording Sample.cv Sample.plt Sample.recording [])) /\
  handleFrame Sample.cv Sample.plt Sample.recording 1 None (Sample.frameOf 11) []
    = ([Call FindFeatures; Call FindMatches;
        WriterWrite Orig (Sample.frameOf 11);
        WriterWrite Gaze (Sample.frameOf 11);
        WriterWrite SummaryRef (Sample.frameOf 11);
        WriterWrite SummaryWorld (Sample.frameOf 11)], inr None).
Proof.
  pose proof (summaryRef_gets_camera_frame
                Sample.cv Sample.plt Sample.recording 1 None
                (Sample.frameOf 11) []) as (Hopen & Hin & Hraw & _).
  split.
  - destruct Hopen as [later ->]. apply in_or_app. right.
    apply in_or_app. left. exact Hin.
  - exact (proj2 (Hraw _ eq_refl eq_refl)).
Defined.

(** Three rows whose first label is 1 while the smallest is 0. *)
Lemma createHeatmap_first_label_not_smallest_witness :
  exists e,
    snd (createHeatmap Sample.cv Sample.plt Sample.unorderedLog 0
                       Sample.refImage []) = inl e.
Proof.
  refine (createHeatmap_first_label_not_smallest
            Sample.cv Sample.plt Sample.unorderedLog 0 Sample.refImage []
            _ _ _ _ _).
  - reflexivity.
  - vm_compute. lia.
  - vm_compute. discriminate.
Defined.

(** A reference image in a directory with a dot in its name. *)
Lemma output_prefix_of_path_witness :
  Prefix.output_prefix "stimuli.v2/painting.jpg" = inr "painting"%string.
Proof.
  refine (Prefix.output_prefix_of_path "stimuli.v2" "painting" "jpg" _ _ _);
    cbn; intuition discriminate.
Defined.

(** The two gaze samples of the first frame of the sample run. *)
Lemma processFrame_maps_each_sample_witness :
  map label [Sample.mappedAt 0 0 2 1; Sample.mappedAt 1 0 1 0.5]%float
    = [0; 1]%Z /\
  Forall (fun r => worldFrame r = 0)
         [Sample.mappedAt 0 0 2 1; Sample.mappedAt 1 0 1 0.5]%float.
Proof.
  destruct (processFrame_maps_each_sample
              Sample.cv 0 (Sample.frameOf 12)
              (Sample.mapper Sample.refImage true)
              [Sample.gazeAt 0 0 0.5 0.5; Sample.gazeAt 1 0 0.25 0.75]%float
              Sample.timestamps [] _
              [Sample.mappedAt 0 0 2 1; Sample.mappedAt 1 0 1 0.5]%float
              eq_refl eq_refl)
    as (f2r & _ & _ & Hlabel & _ & _ & Hframe & _).
  split; [exact Hlabel | exact Hframe].
Defined.

(** The result of a frame with ten matches holds no gaze data. *)
Lemma processFrame_output_contract_witness :
  gazeData (rawFrameOnly 1 (Sample.frameOf 11) 1%float) = None.
Proof.
  refine (proj1 (proj2 (proj1 (processFrame_output_contract
                                 Sample.cv 1 (Sample.frameOf 11)
                                 (Sample.mapper Sample.refImage true)
                                 Sample.gazeSamples Sample.timestamps [] _ _)
                              _))).
  - reflexivity.
  - reflexivity.
Defined.

(** A frame with eleven matches and a gaze sample without a position. *)
Lemma processFrame_nan_sample_witness :
  exists e,
    snd (processFrame Sample.cv 0 (Sample.frameOf 12)
           (Sample.mapper Sample.refImage true)
           [Sample.gazeAt 0 0 0.5 0.5; Sample.gazeAt 1 0 nan 0.5]%float
           Sample.timestamps []) = inl e.
Proof.
  refine (processFrame_nan_sample
            Sample.cv 0 (Sample.frameOf 12)
            (Sample.mapper Sample.refImage true) _ Sample.timestamps []
            (Sample.gazeAt 1 0 nan 0.5) 11 _ _ _ _).
  - reflexivity.
  - lia.
  - right. left. reflexivity.
  - left. reflexivity.
Defined.


(** The third point of the log is of frame 1: it does not count at
    frame 0. *)
Lemma createHeatmap_ignores_later_frames_witness :
  createHeatmap Sample.cv Sample.plt Sample.onImageLog 0 Sample.refImage []
  = createHeatmap Sample.cv Sample.plt
      [Sample.mappedAt 0 0 0.5 0.5; Sample.mappedAt 1 0 1.5 0.5]%float
      0 Sample.refImage [].
Proof.
  refine (createHeatmap_ignores_later_frames
            Sample.cv Sample.plt
            [Sample.mappedAt 0 0 0.5 0.5; Sample.mappedAt 1 0 1.5 0.5]%float
            [Sample.mappedAt 2 1 3.5 1.5]%float 0 Sample.refImage [] _).
  repeat constructor.
Defined.

(** The three frames of the sample run, in each movie. *)
Lemma processRecording_movies_witness :
  exists body,
    Forall frameEvent body /\
    writesTo Orig body
      = [Sample.frameOf 12; Sample.frameOf 11; Sample.frameOf 12] /\
    length (writesTo SummaryRef body) = 3.
Proof.
  destruct (processRecording_movies
              Sample.cv Sample.plt Sample.recording []
              (fst (processRecording Sample.cv Sample.plt Sample.recording []))
              (Some tt)
              (ltac:(vm_compute; reflexivity)) eq_refl)
    as (body & log & _ & Hbody & Horig & Hlen).
  exists body. split; [exact Hbody |]. split; [exact Horig |].
  exact (Hlen SummaryRef).
Defined.

(** The three rows of the log of the sample run. *)
Lemma processRecording_log_in_frame_order_witness :
  exists t0 log,
    fst (processRecording Sample.cv Sample.plt Sample.recording [])
      = t0 ++ [ToCsv log] /\
    StronglySorted le (map worldFrame log).
Proof.
  destruct (processRecording_log_in_frame_order
              Sample.cv Sample.plt Sample.recording []
              (fst (processRecording Sample.cv Sample.plt Sample.recording []))
              (Some tt)
              (ltac:(vm_compute; reflexivity)) eq_refl)
    as (t0 & log & Ht & Hsorted & _).
  exists t0, log. split; [exact Ht | exact Hsorted].
Defined.


